(** * mainline: a dependency-injection container

    Shallow embedding of [src/mainline.py] (Python 2): the [Scope] classes,
    [ScopeRegistry], [Registry], [DependencyRegistry] and the [Di] facade,
    followed by the properties of the resolution engine.

    Python objects are references; identity ([is]) is equality of references.
    Every method that reads or writes an attribute of the container, or of a
    scope instance, is a computation in a state-and-exception monad: an
    exception leaves in place the writes made before it was raised. *)

From Stdlib Require Import Ascii DecimalString DecimalNat.
From stdpp Require Import gmap strings list fin_maps.

Set Default Proof Using "Type".

(** ** Python values *)

Definition addr := nat.
Definition fid := nat.

(** The classes of the module, and any class that is not a mapping
    ([object], [int], a user class, ...). *)
Inductive pyclass :=
  | C_Scope
  | C_SingletonScope
  | C_ProcessScope
  | C_ThreadScope
  | C_NoneScope
  | C_NamedScope
  | C_Other (n : nat).

(** Values that reach the container as scope references, dependents and
    resolved instances. *)
Inductive pyobj :=
  | Str (s : string)        (* a str *)
  | Cls (c : pyclass)       (* a class object *)
  | ScopeInst (a : addr)    (* an instance of Scope or of a subclass, stored at [a] *)
  | Obj (a : addr).         (* any other object: a function, the container, ... *)

(** Keys are strs. The first argument of [resolve] and [depends_on] is a str
    or an iterable of strs. *)
Inductive pyarg :=
  | AStr (s : string)
  | AList (l : list string).

#[global] Instance pyclass_eq_dec : EqDecision pyclass.
Proof. solve_decision. Defined.

#[global] Instance pyobj_eq_dec : EqDecision pyobj.
Proof. solve_decision. Defined.

#[global] Instance pyarg_eq_dec : EqDecision pyarg.
Proof. solve_decision. Defined.

Definition pyclass_code (c : pyclass) : nat :=
  match c with
  | C_Scope => 0 | C_SingletonScope => 1 | C_ProcessScope => 2
  | C_ThreadScope => 3 | C_NoneScope => 4 | C_NamedScope => 5
  | C_Other n => 6 + n
  end.

Definition pyclass_of_code (n : nat) : pyclass :=
  match n with
  | 0 => C_Scope | 1 => C_SingletonScope | 2 => C_ProcessScope
  | 3 => C_ThreadScope | 4 => C_NoneScope | 5 => C_NamedScope
  | S (S (S (S (S (S m))))) => C_Other m
  end.

#[global] Program Instance pyclass_countable : Countable pyclass :=
  inj_countable' pyclass_code pyclass_of_code _.
Next Obligation. by intros []. Qed.

Definition pyobj_code (o : pyobj) : string + (pyclass + (nat + nat)) :=
  match o with
  | Str s => inl s
  | Cls c => inr (inl c)
  | ScopeInst a => inr (inr (inl a))
  | Obj a => inr (inr (inr a))
  end.

Definition pyobj_of_code (x : string + (pyclass + (nat + nat))) : pyobj :=
  match x with
  | inl s => Str s
  | inr (inl c) => Cls c
  | inr (inr (inl a)) => ScopeInst a
  | inr (inr (inr a)) => Obj a
  end.

#[global] Program Instance pyobj_countable : Countable pyobj :=
  inj_countable' pyobj_code pyobj_of_code _.
Next Obligation. by intros []. Qed.

(** The lazy iterator returned by [itertools.ifilterfalse]: the items it
    would yield. *)
Inductive pyiter := IFilterFalse (items : list string).

(** The value of [DependencyRegistry.missing]: [None] or an iterator. *)
Inductive missing_t :=
  | MNone
  | MIter (it : pyiter).

(** Truth value of [missing] in [if missing:]. [None] is false; an iterator
    object defines neither [__nonzero__] nor [__len__], so it is true
    whatever it would yield. *)
Definition truthy (m : missing_t) : bool :=
  match m with
  | MNone => false
  | MIter _ => true
  end.

Inductive exn :=
  | KeyError
  | TypeError
  | ValueError
  | AttributeError
  | NameError (name : string)
  | IndexError
  | UnresolvableError (key : pyarg) (missing : missing_t)
      (* "Missing dependencies for %s: %s" % (key, missing) *)
  | UserError (n : nat)      (* raised by a factory *)
  | RuntimeError.            (* a reference to no object, never raised from a
                                well-formed state; and the one of a recursion
                                beyond the interpreter's limit *)

Inductive result (A : Type) :=
  | Ok (a : A)
  | Err (e : exn).
Arguments Ok {A} a.
Arguments Err {A} e.

(** ** Factories

    A factory is a zero-argument callable. [Lambda obj] is the
    [lambda: obj] of [Registry.add_instance]. [Fn f body] is a callable
    identified by [f]; a call is given a fresh address, at which it may
    build a new object, and returns or raises. Calls of [Fn f _] are counted
    in the [calls] log. Called through [Di.call], a factory does not call
    back into the container; [Nested] has the factories that resolve keys
    through it. *)
Inductive factory :=
  | Lambda (obj : pyobj)
  | Fn (f : fid) (body : addr -> result pyobj).

(** ** The state *)

Record scope_obj := {
  so_class : pyclass;
  (* the attribute [instances]; [None] when it was never assigned *)
  instances : option (gmap string pyobj);
  (* the instance attribute [name]; [None] when it was never assigned *)
  so_name : option pyobj;
}.

Record state := {
  heap : gmap addr scope_obj;         (* the scope instances *)
  next : addr;                        (* next free address *)
  calls : list fid;                   (* factory invocations, latest first *)
  pid : nat;                          (* os.getpid() *)
  self : addr;                        (* the Di object *)
  _lookup : gmap pyobj pyobj;         (* self._scopes._lookup *)
  _factories : gmap string (factory * pyobj);   (* self._registry._factories *)
  _depends_obj : gmap pyobj (gset string);      (* self._depends._depends_obj *)
}.

Definition set_heap (h : gmap addr scope_obj) (s : state) : state :=
  {| heap := h; next := next s; calls := calls s; pid := pid s; self := self s;
     _lookup := _lookup s; _factories := _factories s;
     _depends_obj := _depends_obj s |}.

Definition set_next (n : addr) (s : state) : state :=
  {| heap := heap s; next := n; calls := calls s; pid := pid s; self := self s;
     _lookup := _lookup s; _factories := _factories s;
     _depends_obj := _depends_obj s |}.

Definition set_calls (c : list fid) (s : state) : state :=
  {| heap := heap s; next := next s; calls := c; pid := pid s; self := self s;
     _lookup := _lookup s; _factories := _factories s;
     _depends_obj := _depends_obj s |}.

Definition set_lookup (l : gmap pyobj pyobj) (s : state) : state :=
  {| heap := heap s; next := next s; calls := calls s; pid := pid s;
     self := self s; _lookup := l; _factories := _factories s;
     _depends_obj := _depends_obj s |}.

Definition set_factories (f : gmap string (factory * pyobj)) (s : state) : state :=
  {| heap := heap s; next := next s; calls := calls s; pid := pid s;
     self := self s; _lookup := _lookup s; _factories := f;
     _depends_obj := _depends_obj s |}.

Definition set_depends_obj (d : gmap pyobj (gset string)) (s : state) : state :=
  {| heap := heap s; next := next s; calls := calls s; pid := pid s;
     self := self s; _lookup := _lookup s; _factories := _factories s;
     _depends_obj := d |}.

(** ** The monad *)

Definition M (A : Type) : Type := state -> result A * state.

Definition ret {A} (a : A) : M A := fun s => (Ok a, s).
Definition raise {A} (e : exn) : M A := fun s => (Err e, s).
Definition bind {A B} (m : M A) (k : A -> M B) : M B :=
  fun s => match m s with
           | (Ok a, s') => k a s'
           | (Err e, s') => (Err e, s')
           end.
Definition get_state : M state := fun s => (Ok s, s).
Definition modify (f : state -> state) : M unit := fun s => (Ok tt, f s).
Definition lift {A} (r : result A) : M A := fun s => (r, s).

Declare Scope py_scope.
Delimit Scope py_scope with py.
Notation "x <- c ;; k" := (bind c (fun x => k))
  (at level 100, c at next level, right associativity) : py_scope.
Notation "c ;;; k" := (bind c (fun _ => k))
  (at level 100, right associativity) : py_scope.
Open Scope py_scope.

(** [list(map(f, l))]: [f] on every item in order, stopping at the first
    exception. *)
Fixpoint mapM {A B} (f : A -> M B) (l : list A) : M (list B) :=
  match l with
  | [] => ret []
  | x :: l' => y <- f x ;; ys <- mapM f l' ;; ret (y :: ys)
  end.

(** Hashing. [Scope] derives from [collections.MutableMapping], and
    [collections.Mapping] defines [__eq__] and sets [__hash__ = None]
    (Lib/_abcoll.py of Python 2.7: "Mappings are not hashable by default"),
    so [hash] of an instance of [Scope] or of a subclass raises [TypeError];
    strs, classes and plain objects hash. *)
Definition hashable (o : pyobj) : bool :=
  match o with
  | ScopeInst _ => false
  | _ => true
  end.

(** [k in d] for a dict [d]: hashes [k] first, so it raises [TypeError] for
    an unhashable [k]. *)
Definition dict_contains {V} (d : gmap pyobj V) (k : pyobj) : result bool :=
  if hashable k then Ok (bool_decide (is_Some (d !! k))) else Err TypeError.

(** [isinstance(obj, collections.MutableMapping)]. *)
Definition isinstance_MutableMapping (obj : pyobj) : bool :=
  match obj with
  | ScopeInst _ => true
  | _ => false
  end.

Definition subclass_of_Scope (c : pyclass) : bool :=
  match c with
  | C_Other _ => false
  | _ => true
  end.

(** [issubclass(obj, collections.MutableMapping)]: a [TypeError] when [obj]
    is not a class. *)
Definition issubclass_MutableMapping (obj : pyobj) : result bool :=
  match obj with
  | Cls c => Ok (subclass_of_Scope c)
  | _ => Err TypeError
  end.

(** [inspect.isclass]. *)
Definition isclass (obj : pyobj) : bool :=
  match obj with
  | Cls _ => true
  | _ => false
  end.

(** ** str helpers used by [Scope.name] and [ProcessScope] *)

(** [s.endswith(e)] *)
Definition endswith (s e : string) : bool :=
  String.prefix (String.rev e) (String.rev s).

(** The rest of [s] after the first occurrence of [p], if there is one. *)
Fixpoint after_first (p s : string) : option string :=
  if String.prefix p s
  then Some (String.substring (String.length p) (String.length s - String.length p) s)
  else match s with
       | EmptyString => None
       | String _ s' => after_first p s'
       end.

(** [s.rsplit(sep, 1)[0]]: what comes before the last occurrence of [sep],
    or [s] itself when [sep] does not occur. *)
Definition rsplit1_head (s sep : string) : string :=
  match after_first (String.rev sep) (String.rev s) with
  | Some r => String.rev r
  | None => s
  end.

Definition lower_ascii (c : Ascii.ascii) : Ascii.ascii :=
  let n := nat_of_ascii c in
  if (65 <=? n) && (n <=? 90) then ascii_of_nat (n + 32) else c.

(** [s.lower()] *)
Fixpoint lower (s : string) : string :=
  match s with
  | EmptyString => EmptyString
  | String c s' => String (lower_ascii c) (lower s')
  end.

(** ['%s' % n] for a non-negative int. *)
Definition str_of_int (n : nat) : string :=
  NilZero.string_of_uint (Nat.to_uint n).

(** ** Allocation and the store of scope instances *)

Definition alloc : M addr :=
  fun s => (Ok (next s), set_next (S (next s)) s).

Definition load (a : addr) : M scope_obj :=
  fun s => match heap s !! a with
           | Some o => (Ok o, s)
           | None => (Err RuntimeError, s)
           end.

Definition store (a : addr) (o : scope_obj) : M unit :=
  modify (fun s => set_heap (<[a := o]> (heap s)) s).

(** [try: m  except KeyError: h] *)
Definition except_KeyError {A} (m : M A) (h : M A) : M A :=
  fun s => match m s with
           | (Err KeyError, s') => h s'
           | r => r
           end.

(** ** class Scope and its subclasses *)

Module Scope.

Definition __name__ (c : pyclass) : result string :=
  match c with
  | C_Scope => Ok "Scope"
  | C_SingletonScope => Ok "SingletonScope"
  | C_ProcessScope => Ok "ProcessScope"
  | C_ThreadScope => Ok "ThreadScope"
  | C_NoneScope => Ok "NoneScope"
  | C_NamedScope => Ok "NamedScope"
  | C_Other _ => Err AttributeError   (* no classproperty [name] there *)
  end.

(** The class attribute [register]. *)
Definition register (c : pyclass) : bool :=
  match c with
  | C_NamedScope => false
  | _ => true
  end.

(** The classproperty [name]. *)
Definition name (cls : pyclass) : result string :=
  match __name__ cls with
  | Err e => Err e
  | Ok name =>
      let remove_end := "Scope" in
      let name := if endswith name remove_end
                  then rsplit1_head name remove_end
                  else name in
      Ok (lower name)
  end.

(** The body of the classproperty [name] for a class called [name],
    whatever the class: what a subclass of [Scope] defined elsewhere is
    registered under. *)
Definition name_of (name : string) : string :=
  let remove_end := "Scope" in
  let name := if endswith name remove_end
              then rsplit1_head name remove_end
              else name in
  lower name.

(** [Scope.__subclasses__()], in the order of definition. *)
Definition __subclasses__ : list pyclass :=
  [C_SingletonScope; C_ProcessScope; C_ThreadScope; C_NoneScope; C_NamedScope].

(** [self.instances_factory()]: [dict] for every class but [ThreadScope],
    whose method hands out the dict of the thread-local object made by
    its [__init__] a moment before; a new empty dict in both cases. *)
Definition instances_factory (c : pyclass) : gmap string pyobj := ∅.

(** [Scope.__init__(self)], with no argument: binds [instances] once.
    [self.update(dict())] then writes nothing. *)
Definition __init__ (c : pyclass) : M pyobj :=
  a <- alloc ;;
  store a {| so_class := c; instances := Some (instances_factory c);
             so_name := None |} ;;;
  ret (ScopeInst a).

(** [NamedScope.__init__(self, name)]: assigns [name] and nothing else;
    the initialiser of [Scope] is not called. *)
Definition NamedScope__init__ (name : pyobj) : M pyobj :=
  a <- alloc ;;
  store a {| so_class := C_NamedScope; instances := None;
             so_name := Some name |} ;;;
  ret (ScopeInst a).

(** [cls()]: a call of the class with no argument. *)
Definition new (c : pyclass) : M pyobj :=
  match c with
  | C_NamedScope => raise TypeError      (* __init__ needs [name] *)
  | C_Other _ => a <- alloc ;; ret (Obj a)
  | _ => __init__ c
  end.

Definition __key_transform__ (a : addr) (key : string) : M string :=
  o <- load a ;;
  s <- get_state ;;
  match so_class o with
  | C_ProcessScope => ret (str_of_int (pid s) ++ "_" ++ key)%string
  | _ => ret key
  end.

(** [self.instances] *)
Definition get_instances (a : addr) : M (gmap string pyobj) :=
  o <- load a ;;
  match instances o with
  | Some d => ret d
  | None => raise AttributeError
  end.

Definition __getitem__ (a : addr) (key : string) : M pyobj :=
  key <- __key_transform__ a key ;;
  d <- get_instances a ;;
  match d !! key with
  | Some v => ret v
  | None => raise KeyError
  end.

Definition __setitem__ (a : addr) (key : string) (value : pyobj) : M unit :=
  o <- load a ;;
  match so_class o with
  | C_NoneScope => ret tt
  | _ =>
      key <- __key_transform__ a key ;;
      d <- get_instances a ;;
      store a {| so_class := so_class o; instances := Some (<[key := value]> d);
                 so_name := so_name o |}
  end.

(** [key in self], inherited from [collections.Mapping]:
    [try: self[key]  except KeyError: return False  else: return True]. *)
Definition __contains__ (a : addr) (key : string) : M bool :=
  except_KeyError (__getitem__ a key ;;; ret true) (ret false).

(** [getattr(obj, 'name')] *)
Definition getattr_name (obj : pyobj) : M pyobj :=
  match obj with
  | Cls c => n <- lift (name c) ;; ret (Str n)
  | ScopeInst a =>
      o <- load a ;;
      match so_name o with
      | Some n => ret n
      | None => n <- lift (name (so_class o)) ;; ret (Str n)
      end
  | _ => raise AttributeError
  end.

Definition __delitem__ (a : addr) (key : string) : M unit :=
  key <- __key_transform__ a key ;;
  d <- get_instances a ;;
  match d !! key with
  | None => raise KeyError          (* del self.instances[key] *)
  | Some _ =>
      o <- load a ;;
      store a {| so_class := so_class o; instances := Some (delete key d);
                 so_name := so_name o |}
  end.

(** [iter(self)]: the keys of [self.instances], as they are stored. *)
Definition __iter__ (a : addr) : M (list string) :=
  d <- get_instances a ;;
  ret (fst <$> map_to_list d).

Definition __len__ (a : addr) : M nat :=
  d <- get_instances a ;;
  ret (size d).

End Scope.

(** Operations on a scope given as a value: only an instance has them. *)
Definition scope_contains (scope : pyobj) (key : string) : M bool :=
  match scope with
  | ScopeInst a => Scope.__contains__ a key
  | _ => raise TypeError
  end.

Definition scope_getitem (scope : pyobj) (key : string) : M pyobj :=
  match scope with
  | ScopeInst a => Scope.__getitem__ a key
  | _ => raise TypeError
  end.

Definition scope_setitem (scope : pyobj) (key : string) (value : pyobj) : M unit :=
  match scope with
  | ScopeInst a => Scope.__setitem__ a key value
  | _ => raise TypeError
  end.

(** ** class ScopeRegistry *)

Module ScopeRegistry.

Definition is_scope (obj : pyobj) : result bool :=
  if isinstance_MutableMapping obj then Ok true
  else issubclass_MutableMapping obj.

Definition add (obj : pyobj) (name : option pyobj) : M unit :=
  b <- lift (is_scope obj) ;;
  if negb b then raise ValueError
  else
    name <- match name with
            | None => Scope.getattr_name obj
            | Some n => ret n
            end ;;
    if hashable name
    then modify (fun s => set_lookup (<[name := obj]> (_lookup s)) s)
    else raise TypeError.

Definition _build : M unit :=
  let scope_classes := Scope.__subclasses__ in
  let scope_classes := filter (fun c => Scope.register c = true) scope_classes in
  mapM (fun c => add (Cls c) None) scope_classes ;;; ret tt.

Definition __init__ : M unit :=
  modify (set_lookup ∅) ;;;
  _build.

Definition resolve (scope : pyobj) : M pyobj :=
  s <- get_state ;;
  b <- lift (dict_contains (_lookup s) scope) ;;
  let scope := if b then default scope (_lookup s !! scope) else scope in
  b <- lift (is_scope scope) ;;
  if b then ret scope
  else raise KeyError.

Definition get (scope : pyobj) : M pyobj :=
  scope <- resolve scope ;;
  match scope with
  | Cls c =>
      s <- get_state ;;
      b <- lift (dict_contains (_lookup s) scope) ;;
      (if negb b
       then inst <- Scope.new c ;;
            modify (fun s => set_lookup (<[scope := inst]> (_lookup s)) s)
       else ret tt) ;;;
      resolve scope
  | _ => ret scope
  end.

End ScopeRegistry.

(** ** class Registry *)

Module Registry.

Definition __init__ : M unit := modify (set_factories ∅).

Definition add (key : string) (factory : factory) (scope : pyobj) : M unit :=
  scope <- ScopeRegistry.resolve scope ;;
  modify (fun s => set_factories (<[key := (factory, scope)]> (_factories s)) s).

Definition add_instance (key : string) (obj : pyobj) : M unit :=
  let scope := Str "singleton" in
  let factory := Lambda obj in
  add key factory scope.

Definition get (key : string) : M (factory * pyobj) :=
  s <- get_state ;;
  match _factories s !! key with
  | Some b => ret b
  | None => raise KeyError
  end.

Definition has (s : state) (key : string) : bool :=
  bool_decide (is_Some (_factories s !! key)).

End Registry.

(** ** class DependencyRegistry *)

Module DependencyRegistry.

Definition __init__ : M unit := modify (set_depends_obj ∅).

(** [self._depends_obj] is a [defaultdict(set)]: reading a missing entry
    creates it. A list given as a key is unhashable. *)
Definition add1 (obj : pyobj) (k : pyarg) : M unit :=
  if negb (hashable obj) then raise TypeError
  else
    s <- get_state ;;
    let deps := default ∅ (_depends_obj s !! obj) in
    modify (fun s => set_depends_obj (<[obj := deps]> (_depends_obj s)) s) ;;;
    match k with
    | AList _ => raise TypeError
    | AStr k =>
        modify (fun s => set_depends_obj (<[obj := {[k]} ∪ deps]> (_depends_obj s)) s)
    end.

Definition add (obj : pyobj) (keys : list pyarg) : M unit :=
  mapM (add1 obj) keys ;;; ret tt.

Definition get (obj : pyobj) : M (option (gset string)) :=
  s <- get_state ;;
  b <- lift (dict_contains (_depends_obj s) obj) ;;
  if negb b then ret None
  else ret (_depends_obj s !! obj).

Definition missing (obj : pyobj) : M missing_t :=
  deps <- get obj ;;
  match deps with
  | None => ret MNone
  | Some deps =>
      if bool_decide (deps = ∅) then ret MNone
      else
        s <- get_state ;;
        ret (MIter (IFilterFalse
               (filter (fun k => Registry.has s k = false) (elements deps))))
  end.

End DependencyRegistry.

(** ** class Di *)

(** The names bound at module level, in the order the module binds them. *)
Definition module_globals : list string :=
  ["get_logger"; "_LOG"; "threading"; "functools"; "collections"; "inspect";
   "wrapt"; "os"; "itertools"; "six"; "classproperty"; "consume"; "Scope";
   "SingletonScope"; "ProcessScope"; "ThreadScope"; "NoneScope"; "NamedScope";
   "ScopeRegistry"; "Registry"; "DependencyRegistry"; "DiError";
   "UnresolvableError"; "Di"; "di"].

(** Reading the variable [name] inside a method whose parameters are
    [params]: a parameter, else a module global (no builtin of Python 2 is
    called like any name read below), else a [NameError]. The value read is
    the argument [arg] when [name] is the parameter [holds_arg]. *)
Definition load_name (params : list string) (holds_arg : string) (arg : pyarg)
    (name : string) : M (option pyarg) :=
  if bool_decide (name ∈ params)
  then ret (if bool_decide (name = holds_arg) then Some arg else None)
  else if bool_decide (name ∈ module_globals) then ret None
  else raise (NameError name).

Module Di.

Definition __init__ : M unit :=
  ScopeRegistry.__init__ ;;;
  Registry.__init__ ;;;
  DependencyRegistry.__init__.

Definition scope : M pyobj := Scope.__init__ C_Scope.

Definition named_scope (name : pyobj) : M pyobj :=
  Scope.NamedScope__init__ name.

(** What [register] returns: the factory, or
    [functools.partial(self.register, key, scope=scope)]. *)
Inductive register_ret :=
  | Factory (f : factory)
  | PartialRegister (key : string) (scope : pyobj).

(** The default of the parameter [scope]. *)
Definition default_scope : pyobj := Str "singleton".

Definition register (key : string) (factory : option factory) (scope : pyobj)
    : M register_ret :=
  match factory with
  | None => ret (PartialRegister key scope)
  | Some factory =>
      Registry.add key factory scope ;;;
      ret (Factory factory)
  end.

Definition register_instance (key : string) (obj : pyobj) : M unit :=
  Registry.add_instance key obj.

Definition _coerce_key_or_keys (key_or_keys : pyarg) (more_keys : list pyarg)
    : list pyarg :=
  let keys := [] in
  match more_keys with
  | _ :: _ =>
      (* Multiple arguments given *)
      let keys := keys ++ [key_or_keys] in
      keys ++ more_keys
  | [] =>
      match key_or_keys with
      | AStr _ =>
          (* Singular str *)
          keys ++ [key_or_keys]
      | AList l =>
          (* Singular item; treat as an iterable *)
          keys ++ (AStr <$> l)
      end
  end.

(** What [depends_on] returns: [obj], or
    [functools.partial(self.depends_on, <the value read>)]. *)
Inductive depends_ret :=
  | Target (obj : pyobj)
  | PartialDependsOn (arg : option pyarg).

Definition depends_on (key_or_keys : pyarg) (obj : option pyobj)
    : M depends_ret :=
  match obj with
  | None =>
      arg <- load_name ["self"; "key_or_keys"; "obj"] "key_or_keys" key_or_keys
               "keys_or_keys" ;;
      ret (PartialDependsOn arg)
  | Some obj =>
      let keys := _coerce_key_or_keys key_or_keys [] in
      DependencyRegistry.add obj keys ;;;
      ret (Target obj)
  end.

Definition get_deps (obj : pyobj) : M (option (gset string)) :=
  DependencyRegistry.get obj.

(** [factory()] *)
Definition call (factory : factory) : M pyobj :=
  match factory with
  | Lambda obj => ret obj
  | Fn f body =>
      a <- alloc ;;
      modify (fun s => set_calls (f :: calls s) s) ;;;
      lift (body a)
  end.

Definition _resolve_one (key : pyarg) : M pyobj :=
  match key with
  | AList _ => raise TypeError      (* self._factories[key]: unhashable *)
  | AStr k =>
      binding <- Registry.get k ;;
      let '(factory, factory_scope) := binding in

      missing <- DependencyRegistry.missing (Str k) ;;
      if truthy missing
      then raise (UnresolvableError key missing)
      else
        scope <- ScopeRegistry.get factory_scope ;;
        b <- scope_contains scope k ;;
        if b
        then scope_getitem scope k
        else
          value <- call factory ;;
          scope_setitem scope k value ;;;
          ret value
  end.

(** What [resolve] returns. *)
Inductive resolved :=
  | Value (v : pyobj)                        (* ret[0] *)
  | KeyValue (kv : pyarg * pyobj)            (* ret[0], with_keys *)
  | Values (l : list pyobj)                  (* ret *)
  | KeyValues (l : list (pyarg * pyobj)).    (* ret, with_keys *)

Definition resolve (key_or_keys : pyarg) (more_keys : list pyarg)
    (with_keys : bool) : M resolved :=
  let keys := _coerce_key_or_keys key_or_keys more_keys in
  ret_ <- mapM _resolve_one keys ;;
  if with_keys
  then
    let ret_ := zip keys ret_ in
    match more_keys with
    | _ :: _ => ret (KeyValues ret_)
    | [] => match ret_ with
            | x :: _ => ret (KeyValue x)
            | [] => raise IndexError
            end
    end
  else
    match more_keys with
    | _ :: _ =>
        (* Always return a sequence when given multiple arguments *)
        ret (Values ret_)
    | [] => match ret_ with
            | x :: _ => ret (Value x)
            | [] => raise IndexError
            end
    end.

Definition resolve_deps (obj : pyobj) (with_keys : bool) : M resolved :=
  deps <- get_deps obj ;;
  match deps with
  | None => raise TypeError        (* keys.extend(None) *)
  | Some deps => resolve (AList (elements deps)) [] with_keys
  end.

End Di.

(** ** Factories that resolve keys

    [factory()] in [_resolve_one] runs user code, and that code may call the
    container: a callable that takes its dependencies from the container
    resolves them when it is called, as the wrapper built by [provide_args]
    does when it calls [self.resolve] on its keys. [uses f] lists the keys
    the callable [f] resolves, in order, before it builds its object; it
    makes no other call of the container. [depth] is the nesting of
    resolutions the interpreter still allows: beyond its recursion limit it
    raises [RuntimeError]. *)
Module Nested.
Section nested.
Variable uses : fid → list string.

(** [factory()], the resolutions it makes going through [resolve_one]. *)
Definition call (resolve_one : pyarg → M pyobj) (factory : factory) : M pyobj :=
  match factory with
  | Lambda obj => ret obj
  | Fn f body =>
      a <- alloc ;;
      modify (fun s => set_calls (f :: calls s) s) ;;;
      mapM resolve_one (AStr <$> uses f) ;;;
      lift (body a)
  end.

Fixpoint _resolve_one (depth : nat) (key : pyarg) : M pyobj :=
  match depth with
  | 0 => raise RuntimeError         (* maximum recursion depth exceeded *)
  | S depth' =>
      match key with
      | AList _ => raise TypeError      (* self._factories[key]: unhashable *)
      | AStr k =>
          binding <- Registry.get k ;;
          let '(factory, factory_scope) := binding in

          missing <- DependencyRegistry.missing (Str k) ;;
          if truthy missing
          then raise (UnresolvableError key missing)
          else
            scope <- ScopeRegistry.get factory_scope ;;
            b <- scope_contains scope k ;;
            if b
            then scope_getitem scope k
            else
              value <- call (_resolve_one depth') factory ;;
              scope_setitem scope k value ;;;
              ret value
      end
  end.

Definition resolve (depth : nat) (key_or_keys : pyarg) (more_keys : list pyarg)
    (with_keys : bool) : M Di.resolved :=
  let keys := Di._coerce_key_or_keys key_or_keys more_keys in
  ret_ <- mapM (_resolve_one depth) keys ;;
  if with_keys
  then
    let ret_ := zip keys ret_ in
    match more_keys with
    | _ :: _ => ret (Di.KeyValues ret_)
    | [] => match ret_ with
            | x :: _ => ret (Di.KeyValue x)
            | [] => raise IndexError
            end
    end
  else
    match more_keys with
    | _ :: _ =>
        (* Always return a sequence when given multiple arguments *)
        ret (Di.Values ret_)
    | [] => match ret_ with
            | x :: _ => ret (Di.Value x)
            | [] => raise IndexError
            end
    end.

End nested.
End Nested.

(** ** Containers *)

(** The state in which [Di()] starts to run [__init__]: the new object is at
    [a], no scope instance exists and no factory was called. *)
Definition blank (pid0 : nat) (a : addr) : state :=
  {| heap := ∅; next := S a; calls := []; pid := pid0; self := a;
     _lookup := ∅; _factories := ∅; _depends_obj := ∅ |}.

(** [Di()] *)
Definition Di_new (pid0 : nat) (a : addr) : result unit * state :=
  Di.__init__ (blank pid0 a).

(** The last two lines of the module:
    [di = Di()] and [di.register_instance('di', di)]. *)
Definition module_di (pid0 : nat) (a : addr) : result unit * state :=
  (Di.__init__ ;;; Di.register_instance "di" (Obj a)) (blank pid0 a).

(** Running a computation from the state another one leaves. *)
Definition after {A B} (r : result A * state) (m : M B) : result B * state :=
  match r with
  | (Ok _, s) => m s
  | (Err e, s) => (Err e, s)
  end.

(** How many times the callable [f] was called. *)
Definition call_count (f : fid) (s : state) : nat :=
  length (filter (fun g => g = f) (calls s)).


(** ** Notions used by the statements *)

(** The classes [ScopeRegistry.get] can instantiate with [scope()]. *)
Definition instantiable (c : pyclass) : bool :=
  match c with
  | C_NamedScope | C_Other _ => false
  | _ => true
  end.

(** The key under which a scope of class [c] stores the instance of [k]. *)
Definition transformed (c : pyclass) (s : state) (k : string) : string :=
  match c with
  | C_ProcessScope => (str_of_int (pid s) ++ "_" ++ k)%string
  | _ => k
  end.

(** The instance kept by the scope registry for the class [c]. *)
Definition instance_of (s : state) (c : pyclass) : option addr :=
  match _lookup s !! Cls c with
  | Some (ScopeInst a) => Some a
  | _ => None
  end.

(** The instance stored for [k] in the scope the registry keeps for [c]. *)
Definition cached (s : state) (c : pyclass) (k : string) : option pyobj :=
  a ← instance_of s c;
  o ← heap s !! a;
  d ← instances o;
  d !! transformed c s k.

(** [k] has no declared dependency: no entry, or an empty set. *)
Definition no_deps (s : state) (k : string) : Prop :=
  _depends_obj s !! Str k = None ∨ _depends_obj s !! Str k = Some ∅.

(** The callable never raises. *)
Definition returns (f : factory) : Prop :=
  match f with
  | Lambda _ => True
  | Fn _ body => ∀ a, ∃ v, body a = Ok v
  end.

(** The invariant of the states a container goes through: the four scope
    names are bound to their classes; a class entry of the scope registry
    holds an initialised instance of that class; addresses in use are below
    the next free one; a [NoneScope] stores nothing. *)
Record wf (s : state) : Prop := {
  wf_singleton : _lookup s !! Str "singleton" = Some (Cls C_SingletonScope);
  wf_process : _lookup s !! Str "process" = Some (Cls C_ProcessScope);
  wf_thread : _lookup s !! Str "thread" = Some (Cls C_ThreadScope);
  wf_none : _lookup s !! Str "none" = Some (Cls C_NoneScope);
  wf_class : ∀ c x, _lookup s !! Cls c = Some x →
    ∃ a o d, x = ScopeInst a ∧ heap s !! a = Some o ∧ so_class o = c ∧
             instances o = Some d;
  wf_fresh : ∀ a, is_Some (heap s !! a) → a < next s;
  wf_nonescope : ∀ a o, heap s !! a = Some o → so_class o = C_NoneScope →
    instances o = Some ∅;
}.

(** The state after [ScopeRegistry.get] made the instance of [c]. *)
Definition instantiated (c : pyclass) (s : state) : state :=
  set_lookup (<[Cls c := ScopeInst (next s)]> (_lookup s))
    (set_heap (<[next s := {| so_class := c; instances := Some ∅;
                               so_name := None |}]> (heap s))
       (set_next (S (next s)) s)).

(** The state in which the scope of class [c] is at hand. *)
Definition acquired (c : pyclass) (s : state) : state :=
  match instance_of s c with
  | Some _ => s
  | None => instantiated c s
  end.

(** The address of the scope instance of class [c] once acquired. *)
Definition acquired_at (c : pyclass) (s : state) : addr :=
  default (next s) (instance_of s c).

(** [n] consecutive calls [resolve(k)]; the state they leave. *)
Fixpoint resolve_n (n : nat) (k : string) (s : state) : state :=
  match n with
  | 0 => s
  | S n' => resolve_n n' k (snd (Di.resolve (AStr k) [] false s))
  end.

(** The scope reference [scope] is valid in [s]: an identifier registered
    in the scope registry for an object with the mapping interface, or an
    object or class that has the mapping interface itself. *)
Definition valid_scope_ref (s : state) (scope : pyobj) : Prop :=
  (hashable scope = true ∧
   ∃ x, _lookup s !! scope = Some x ∧ ScopeRegistry.is_scope x = Ok true)
  ∨ ScopeRegistry.is_scope scope = Ok true.

(** What a resolution keeps of the state it starts from: both tables of
    the container, the process and the container themselves, every entry of
    the scope registry and every scope instance. *)
Definition extends (s s' : state) : Prop :=
  _factories s' = _factories s ∧ _depends_obj s' = _depends_obj s ∧
  pid s' = pid s ∧ self s' = self s ∧
  (∀ x v, _lookup s !! x = Some v → _lookup s' !! x = Some v) ∧
  (∀ a o, heap s !! a = Some o → heap s' !! a = Some o).

(** [m] keeps the property [P] of the state, whatever it returns or raises. *)
Definition preserves {A} (P : state → Prop) (m : M A) : Prop :=
  ∀ s, P s → P (snd (m s)).

(** Both tables of the container are [F] and [D]. *)
Definition tables (F : gmap string (factory * pyobj))
    (D : gmap pyobj (gset string)) (s : state) : Prop :=
  _factories s = F ∧ _depends_obj s = D.

(** From [s] to [s'] every scope instance keeps its class and its name, and
    every one but [x] keeps its store. *)
Definition heap_frame (x : pyobj) (s s' : state) : Prop :=
  ∀ a o, heap s !! a = Some o →
    ∃ o', heap s' !! a = Some o' ∧ so_class o' = so_class o ∧
          so_name o' = so_name o ∧ (x ≠ ScopeInst a → o' = o).

(** From [s] to [s'] the process and the container are the same, every
    entry of the scope registry is kept, and every scope instance is still
    there with its class and its name: what may differ is the stores, and
    the entries and instances that are new. *)
Definition keeps_scopes (s s' : state) : Prop :=
  pid s' = pid s ∧ self s' = self s ∧
  (∀ x v, _lookup s !! x = Some v → _lookup s' !! x = Some v) ∧
  (∀ a o, heap s !! a = Some o →
     ∃ o', heap s' !! a = Some o' ∧ so_class o' = so_class o ∧
           so_name o' = so_name o).

(** [s] is well formed and keeps the scopes of [s0]. *)
Definition kept (s0 s : state) : Prop := wf s ∧ keeps_scopes s0 s.

(** The scope the registry yields for the scope reference [k] is bound to. *)
Definition bound_scope (s : state) (k : pyarg) : option pyobj :=
  match k with
  | AList _ => None
  | AStr k =>
      match _factories s !! k with
      | Some (_, sc) =>
          match fst (ScopeRegistry.get sc s) with
          | Ok x => Some x
          | Err _ => None
          end
      | None => None
      end
  end.

(** The scope registry as [ScopeRegistry._build] leaves it. *)
Definition initial_lookup : gmap pyobj pyobj :=
  <[Str "none" := Cls C_NoneScope]>
    (<[Str "thread" := Cls C_ThreadScope]>
       (<[Str "process" := Cls C_ProcessScope]>
          (<[Str "singleton" := Cls C_SingletonScope]> ∅))).

(** The container [Di()] returns. *)
Definition initial (pid0 : nat) (a : addr) : state :=
  {| heap := ∅; next := S a; calls := []; pid := pid0; self := a;
     _lookup := initial_lookup; _factories := ∅; _depends_obj := ∅ |}.

(** The state [register] leaves when it binds [key]. *)
Definition bound (key : string) (f : factory) (scope : pyobj) (s : state) : state :=
  set_factories (<[key := (f, scope)]> (_factories s)) s.

(** [k] can be resolved: it is bound to a factory that never raises, in a
    scope class the registry can instantiate, and has no declared
    dependency. *)
Definition resolvable (s : state) (k : string) : Prop :=
  ∃ f c, _factories s !! k = Some (f, Cls c) ∧ instantiable c = true ∧
         no_deps s k ∧ returns f.

(** The same state seen by the process [p]: what a child process holds
    after a fork, [os.getpid()] answering [p] there. *)
Definition in_process (p : nat) (s : state) : state :=
  {| heap := heap s; next := next s; calls := calls s; pid := p; self := self s;
     _lookup := _lookup s; _factories := _factories s;
     _depends_obj := _depends_obj s |}.

(** The store of the scope instance at [a], when it has one. *)
Definition store_of (s : state) (a : addr) : option (gmap string pyobj) :=
  heap s !! a ≫= instances.

(** The class of the scope instance at [a]. *)
Definition class_of (s : state) (a : addr) : option pyclass :=
  so_class <$> heap s !! a.

(** ** Example containers *)

(** A callable that builds a new object at every call. *)
Definition make_object (a : addr) : result pyobj := Ok (Obj a).

(** A new container in process 7, allocated at address 100. *)
Definition fresh_di : state := snd (Di_new 7 100).

(** [register('a', fa)], [register('b', fb)], [register('K', fK)]. *)
Definition abk_di : state :=
  snd ((Di.register "a" (Some (Fn 1 make_object)) Di.default_scope ;;;
        Di.register "b" (Some (Fn 2 make_object)) Di.default_scope ;;;
        Di.register "K" (Some (Fn 3 make_object)) Di.default_scope) fresh_di).

(** ... then [depends_on(['a', 'b'], 'K')]. *)
Definition abk_deps_di : state :=
  snd (Di.depends_on (AList ["a"; "b"]) (Some (Str "K")) abk_di).

(** [register('k', g)], [resolve('k')], then [register('k', f, 'singleton')]:
    ['k'] is bound to a new factory while the singleton scope still holds
    the instance the first one made. *)
Definition stale_k_di : state :=
  snd ((Di.register "k" (Some (Fn 1 make_object)) Di.default_scope ;;;
        Di.resolve (AStr "k") [] false ;;;
        Di.register "k" (Some (Fn 2 make_object)) (Str "singleton")) fresh_di).

(** [register('x', g)], [resolve('x')], then [register_instance('x', obj)]. *)
Definition stale_x_di : state :=
  snd ((Di.register "x" (Some (Fn 1 make_object)) Di.default_scope ;;;
        Di.resolve (AStr "x") [] false ;;;
        Di.register_instance "x" (Obj 5)) fresh_di).

(** [depends_on('a', 'x')], then [register_instance('x', obj)]. *)
Definition needy_x_di : state :=
  snd ((Di.depends_on (AStr "a") (Some (Str "x")) ;;;
        Di.register_instance "x" (Obj 5)) fresh_di).

(** [register('j', g, 'none')], then [resolve('j')]: the registry now holds
    the instance of the None scope. *)
Definition none_used_di : state :=
  snd ((Di.register "j" (Some (Fn 1 make_object)) (Str "none") ;;;
        Di.resolve (AStr "j") [] false) fresh_di).

(** A callable, [2], that resolves ['db'] when it is called; the others
    resolve nothing. *)
Definition svc_uses (f : fid) : list string :=
  if decide (f = 2) then ["db"] else [].

(** [register('db', make_db)], [register('x', make_x)],
    [register('svc', make_svc, 'none')] where [make_svc] is the callable
    [2], then [resolve('x')]: the singleton scope exists and holds the
    instance of ['x']. *)
Definition svc_di : state :=
  snd ((Di.register "db" (Some (Fn 1 make_object)) Di.default_scope ;;;
        Di.register "x" (Some (Fn 3 make_object)) Di.default_scope ;;;
        Di.register "svc" (Some (Fn 2 make_object)) (Str "none") ;;;
        Di.resolve (AStr "x") [] false) fresh_di).

(** * Properties *)

(** ** The monad *)

Lemma bind_Ok {A B} (m : M A) (k : A → M B) s a s' :
  m s = (Ok a, s') → bind m k s = k a s'.
Proof. unfold bind. by intros ->. Qed.

Lemma bind_Err {A B} (m : M A) (k : A → M B) s e s' :
  m s = (Err e, s') → bind m k s = (Err e, s').
Proof. unfold bind. by intros ->. Qed.

Lemma bind_inv {A B} (m : M A) (k : A → M B) s r s' :
  bind m k s = (r, s') →
  (∃ a s1, m s = (Ok a, s1) ∧ k a s1 = (r, s')) ∨
  (∃ e, m s = (Err e, s') ∧ r = Err e).
Proof.
  unfold bind. destruct (m s) as [[a|e] s1]; [eauto|].
  intros [= <- <-]. eauto.
Qed.

Lemma mapM_length {A B} (f : A → M B) l s r s' :
  mapM f l s = (Ok r, s') → length r = length l.
Proof.
  revert s r s'. induction l as [|x l IH]; intros s r s'; simpl.
  - by intros [= <- _].
  - intros H. apply bind_inv in H as [(y & s1 & _ & H)|(e & _ & [=])].
    apply bind_inv in H as [(ys & s2 & Hys & H)|(e & _ & [=])].
    unfold ret in H. injection H as Hr _. subst r. simpl. f_equal.
    by apply (IH s1 ys s2).
Qed.

Ltac step H := rewrite (bind_Ok _ _ _ _ _ H); simpl.
Ltac fail_with H := rewrite (bind_Err _ _ _ _ _ H); simpl.

(** ** Dict membership *)

Lemma dict_contains_Some {V} (d : gmap pyobj V) k v :
  hashable k = true → d !! k = Some v → dict_contains d k = Ok true.
Proof.
  intros Hh Hk. unfold dict_contains. rewrite Hh.
  by rewrite bool_decide_eq_true_2; [|eexists].
Qed.

Lemma dict_contains_None {V} (d : gmap pyobj V) k :
  hashable k = true → d !! k = None → dict_contains d k = Ok false.
Proof.
  intros Hh Hk. unfold dict_contains. rewrite Hh.
  rewrite bool_decide_eq_false_2; [done|]. rewrite Hk. by intros [? ?].
Qed.

Lemma dict_contains_unhashable {V} (d : gmap pyobj V) a :
  dict_contains d (ScopeInst a) = Err TypeError.
Proof. done. Qed.

Lemma has_true s k : Registry.has s k = true ↔ is_Some (_factories s !! k).
Proof. unfold Registry.has. apply bool_decide_eq_true. Qed.

(** ** The scope registry *)

Lemma is_scope_class c :
  ScopeRegistry.is_scope (Cls c) = Ok (subclass_of_Scope c).
Proof. done. Qed.

Lemma instantiable_subclass c : instantiable c = true → subclass_of_Scope c = true.
Proof. by destruct c. Qed.

Lemma resolve_name s n c :
  _lookup s !! Str n = Some (Cls c) → subclass_of_Scope c = true →
  ScopeRegistry.resolve (Str n) s = (Ok (Cls c), s).
Proof.
  intros Hn Hc. unfold ScopeRegistry.resolve, bind, get_state, lift.
  rewrite (dict_contains_Some _ (Str n) _ eq_refl Hn), Hn. simpl.
  by rewrite Hc.
Qed.

Lemma resolve_class_absent s c :
  _lookup s !! Cls c = None → subclass_of_Scope c = true →
  ScopeRegistry.resolve (Cls c) s = (Ok (Cls c), s).
Proof.
  intros Hn Hc. unfold ScopeRegistry.resolve, bind, get_state, lift.
  rewrite (dict_contains_None _ (Cls c) eq_refl Hn). simpl.
  by rewrite Hc.
Qed.

Lemma resolve_class_present s c a :
  _lookup s !! Cls c = Some (ScopeInst a) →
  ScopeRegistry.resolve (Cls c) s = (Ok (ScopeInst a), s).
Proof.
  intros Hn. unfold ScopeRegistry.resolve, bind, get_state, lift.
  by rewrite (dict_contains_Some _ (Cls c) _ eq_refl Hn), Hn.
Qed.

Lemma resolve_instance s a :
  ScopeRegistry.resolve (ScopeInst a) s = (Err TypeError, s).
Proof. done. Qed.

Lemma get_class_present s c a :
  _lookup s !! Cls c = Some (ScopeInst a) →
  ScopeRegistry.get (Cls c) s = (Ok (ScopeInst a), s).
Proof.
  intros Hn. unfold ScopeRegistry.get, bind.
  by rewrite (resolve_class_present _ _ _ Hn).
Qed.

Lemma get_class_absent s c :
  _lookup s !! Cls c = None → instantiable c = true →
  ScopeRegistry.get (Cls c) s = (Ok (ScopeInst (next s)), instantiated c s).
Proof.
  intros Hn Hc. unfold ScopeRegistry.get, bind.
  rewrite (resolve_class_absent _ _ Hn (instantiable_subclass _ Hc)).
  unfold get_state, lift. rewrite (dict_contains_None _ (Cls c) eq_refl Hn). simpl.
  assert (Scope.new c s
          = (Ok (ScopeInst (next s)),
             set_heap (<[next s := {| so_class := c; instances := Some ∅;
                                      so_name := None |}]> (heap s))
               (set_next (S (next s)) s))) as ->
    by (by destruct c).
  unfold modify. simpl.
  rewrite resolve_class_present with (a := next s).
  - done.
  - simpl. apply lookup_insert_eq.
Qed.

Lemma instance_of_Some s c a :
  instance_of s c = Some a → _lookup s !! Cls c = Some (ScopeInst a).
Proof.
  unfold instance_of. destruct (_lookup s !! Cls c) as [[]|]; naive_solver.
Qed.

Lemma instance_of_None s c :
  wf s → instance_of s c = None → _lookup s !! Cls c = None.
Proof.
  intros Hwf. unfold instance_of.
  destruct (_lookup s !! Cls c) as [x|] eqn:E; [|done].
  destruct (wf_class s Hwf c x E) as (a & o & d & -> & _). done.
Qed.

Lemma get_class s c :
  wf s → instantiable c = true →
  ScopeRegistry.get (Cls c) s = (Ok (ScopeInst (acquired_at c s)), acquired c s).
Proof.
  intros Hwf Hc. unfold acquired_at, acquired.
  destruct (instance_of s c) as [a|] eqn:E.
  - apply get_class_present, instance_of_Some, E.
  - apply get_class_absent; [|done]. by apply instance_of_None.
Qed.

Lemma transformed_inj c s k k' :
  transformed c s k = transformed c s k' → k = k'.
Proof.
  destruct c; simpl; try done.
  intros H. by do 2 apply String.app_inj in H.
Qed.

(** ** Operations of a scope instance *)

Section scope_ops.
Context (s : state) (a : addr) (o : scope_obj) (d : gmap string pyobj).
Hypothesis Ho : heap s !! a = Some o.
Hypothesis Hd : instances o = Some d.

Lemma key_transform_eq k :
  Scope.__key_transform__ a k s = (Ok (transformed (so_class o) s k), s).
Proof using Ho.
  unfold Scope.__key_transform__, bind, load, get_state. rewrite Ho.
  by destruct (so_class o).
Qed.

Lemma getitem_eq k :
  Scope.__getitem__ a k s
  = (match d !! transformed (so_class o) s k with
     | Some v => Ok v
     | None => Err KeyError
     end, s).
Proof using Ho Hd.
  unfold Scope.__getitem__, bind. rewrite key_transform_eq.
  unfold Scope.get_instances, bind, load. rewrite Ho, Hd. simpl.
  by destruct (d !! _).
Qed.

Lemma contains_eq k :
  Scope.__contains__ a k s
  = (Ok (bool_decide (is_Some (d !! transformed (so_class o) s k))), s).
Proof using Ho Hd.
  unfold Scope.__contains__, except_KeyError, bind. rewrite getitem_eq.
  by destruct (d !! _).
Qed.

Lemma setitem_eq k v :
  Scope.__setitem__ a k v s
  = (Ok tt,
     if decide (so_class o = C_NoneScope) then s
     else set_heap
            (<[a := {| so_class := so_class o;
                       instances := Some (<[transformed (so_class o) s k := v]> d);
                       so_name := so_name o |}]> (heap s)) s).
Proof using Ho Hd.
  unfold Scope.__setitem__, bind, load. rewrite Ho.
  destruct (decide (so_class o = C_NoneScope)) as [->|Hne]; [done|].
  assert (∀ (X : M unit),
    match so_class o with C_NoneScope => ret tt | _ => X end = X) as ->
    by (intros X; by destruct (so_class o)).
  rewrite key_transform_eq.
  unfold Scope.get_instances, bind, load. rewrite Ho, Hd. done.
Qed.
End scope_ops.

(** A scope instance that has no attribute [instances] supports none of the
    three operations. *)
Lemma uninitialised_scope_ops s a o k v :
  heap s !! a = Some o → instances o = None → so_class o = C_NamedScope →
  Scope.__contains__ a k s = (Err AttributeError, s) ∧
  Scope.__getitem__ a k s = (Err AttributeError, s) ∧
  Scope.__setitem__ a k v s = (Err AttributeError, s).
Proof.
  intros Ho Hd Hc.
  assert (Scope.__getitem__ a k s = (Err AttributeError, s)) as Hget.
  { unfold Scope.__getitem__, bind. rewrite (key_transform_eq s a o Ho).
    unfold Scope.get_instances, bind, load. by rewrite Ho, Hd. }
  split_and!; [|done|].
  - unfold Scope.__contains__, except_KeyError, bind. by rewrite Hget.
  - unfold Scope.__setitem__, bind, load. rewrite Ho, Hc.
    rewrite (key_transform_eq s a o Ho).
    unfold Scope.get_instances, bind, load. by rewrite Ho, Hd.
Qed.

(** ** The dependency registry *)

Lemma missing_no_deps s k :
  no_deps s k → DependencyRegistry.missing (Str k) s = (Ok MNone, s).
Proof.
  intros [H|H]; unfold DependencyRegistry.missing, DependencyRegistry.get,
    bind, get_state, lift.
  - by rewrite (dict_contains_None _ (Str k) eq_refl H).
  - by rewrite (dict_contains_Some _ (Str k) _ eq_refl H), H.
Qed.

Lemma missing_declared s k deps :
  _depends_obj s !! Str k = Some deps → deps ≠ ∅ →
  DependencyRegistry.missing (Str k) s
  = (Ok (MIter (IFilterFalse
        (filter (fun d => Registry.has s d = false) (elements deps)))), s).
Proof.
  intros H Hne. unfold DependencyRegistry.missing, DependencyRegistry.get,
    bind, get_state, lift.
  rewrite (dict_contains_Some _ (Str k) _ eq_refl H), H. simpl.
  by rewrite bool_decide_eq_false_2.
Qed.

(** ** One resolution *)

Lemma acquired_store s c :
  wf s → instantiable c = true →
  ∃ o d, heap (acquired c s) !! acquired_at c s = Some o ∧ so_class o = c ∧
         instances o = Some d ∧
         ∀ k, d !! transformed c s k = cached s c k.
Proof.
  intros Hwf Hc. unfold acquired, acquired_at, cached.
  destruct (instance_of s c) as [a|] eqn:E; simpl.
  - destruct (wf_class s Hwf c _ (instance_of_Some _ _ _ E))
      as (a' & o & d & [= <-] & Ho & Hcl & Hd).
    exists o, d. rewrite Ho. simpl. rewrite Hd. done.
  - eexists _, ∅. rewrite lookup_insert_eq. done.
Qed.

Lemma cached_instance s c k v :
  cached s c k = Some v → ∃ a, instance_of s c = Some a.
Proof. unfold cached. destruct (instance_of s c); naive_solver. Qed.

Lemma acquired_cached s c k v : cached s c k = Some v → acquired c s = s.
Proof. intros [a Ha]%cached_instance. unfold acquired. by rewrite Ha. Qed.

Lemma acquired_pid s c : pid (acquired c s) = pid s.
Proof. unfold acquired. by destruct (instance_of s c). Qed.

Lemma transformed_pid c s s' k :
  pid s' = pid s → transformed c s' k = transformed c s k.
Proof. intros H. destruct c; simpl; by rewrite ?H. Qed.

Lemma Registry_get_eq s k b :
  _factories s !! k = Some b → Registry.get k s = (Ok b, s).
Proof. intros H. unfold Registry.get, bind, get_state. by rewrite H. Qed.

Lemma Registry_get_unbound s k :
  _factories s !! k = None → Registry.get k s = (Err KeyError, s).
Proof. intros H. unfold Registry.get, bind, get_state. by rewrite H. Qed.

Lemma resolve_one_hit s k f c v :
  wf s → _factories s !! k = Some (f, Cls c) → no_deps s k →
  instantiable c = true → cached s c k = Some v →
  Di._resolve_one (AStr k) s = (Ok v, s).
Proof.
  intros Hwf Hb Hnd Hc Hv.
  destruct (acquired_store s c Hwf Hc) as (o & d & Ho & Hcl & Hd & Hk).
  rewrite (acquired_cached _ _ _ _ Hv) in Ho.
  unfold Di._resolve_one.
  step (Registry_get_eq _ _ _ Hb).
  step (missing_no_deps _ _ Hnd).
  pose proof (get_class _ _ Hwf Hc) as Hg.
  rewrite (acquired_cached _ _ _ _ Hv) in Hg.
  step Hg.
  rewrite (bind_Ok _ _ _ _ _ (contains_eq _ _ _ _ Ho Hd _)).
  rewrite Hcl, Hk, Hv. simpl.
  rewrite (getitem_eq _ _ _ _ Ho Hd), Hcl, Hk, Hv. done.
Qed.

Lemma resolve_one_miss s k f c :
  wf s → _factories s !! k = Some (f, Cls c) → no_deps s k →
  instantiable c = true → cached s c k = None →
  Di._resolve_one (AStr k) s
  = match Di.call f (acquired c s) with
    | (Ok v, s2) => (Ok v, snd (Scope.__setitem__ (acquired_at c s) k v s2))
    | (Err e, s2) => (Err e, s2)
    end.
Proof.
  intros Hwf Hb Hnd Hc Hv.
  destruct (acquired_store s c Hwf Hc) as (o & d & Ho & Hcl & Hd & Hk).
  unfold Di._resolve_one.
  step (Registry_get_eq _ _ _ Hb).
  step (missing_no_deps _ _ Hnd).
  step (get_class _ _ Hwf Hc).
  rewrite (bind_Ok _ _ _ _ _ (contains_eq _ _ _ _ Ho Hd _)).
  rewrite Hcl, (transformed_pid _ _ _ _ (acquired_pid s c)), Hk, Hv. simpl.
  unfold bind at 1.
  destruct (Di.call f (acquired c s)) as [[v|e] s2] eqn:Ecall; [|done].
  assert (∃ o2 d2, heap s2 !! acquired_at c s = Some o2 ∧
                   instances o2 = Some d2) as (o2 & d2 & Ho2 & Hd2).
  { destruct f; simpl in Ecall.
    - injection Ecall as _ <-. eauto.
    - unfold bind, alloc, modify, lift in Ecall. simpl in Ecall.
      injection Ecall as _ <-. eauto. }
  unfold bind. rewrite (setitem_eq _ _ _ _ Ho2 Hd2). done.
Qed.

(** ** Frame and invariant *)

Lemma extends_refl s : extends s s.
Proof. by repeat split. Qed.

Lemma extends_trans s1 s2 s3 : extends s1 s2 → extends s2 s3 → extends s1 s3.
Proof.
  intros (F1 & D1 & P1 & S1 & L1 & H1) (F2 & D2 & P2 & S2 & L2 & H2).
  repeat split; [congruence..| |]; eauto.
Qed.

Lemma resolve_pure sc s : snd (ScopeRegistry.resolve sc s) = s.
Proof.
  unfold ScopeRegistry.resolve, bind, get_state, lift.
  repeat case_match; by simplify_eq.
Qed.

Lemma resolve_is_scope sc s x s' :
  ScopeRegistry.resolve sc s = (Ok x, s') → ScopeRegistry.is_scope x = Ok true.
Proof.
  unfold ScopeRegistry.resolve, bind, get_state, lift, raise, ret.
  repeat case_match; intros; by simplify_eq.
Qed.

Lemma wf_instantiated s c :
  wf s → _lookup s !! Cls c = None → wf (instantiated c s).
Proof.
  intros Hwf Hn. pose proof (wf_fresh s Hwf) as Hfr.
  assert (heap s !! next s = None) as Hnone.
  { destruct (heap s !! next s) eqn:E; [|done].
    specialize (Hfr (next s) (mk_is_Some _ _ E)). lia. }
  split; simpl.
  1-4: rewrite lookup_insert_ne by done; apply Hwf.
  - intros c' x. destruct (decide (c' = c)) as [->|Hne].
    + rewrite lookup_insert_eq. intros [= <-].
      eexists _, _, _. split; [done|]. rewrite lookup_insert_eq. done.
    + rewrite lookup_insert_ne by congruence. intros Hx.
      destruct (wf_class s Hwf c' x Hx) as (a & o & d & -> & Ho & Hc & Hd).
      exists a, o, d. split; [done|]. rewrite lookup_insert_ne; [done|].
      intros <-. congruence.
  - intros a [o Ho]. destruct (decide (a = next s)) as [->|Hne]; [lia|].
    rewrite lookup_insert_ne in Ho by done.
    specialize (Hfr a (mk_is_Some _ _ Ho)). lia.
  - intros a o. destruct (decide (a = next s)) as [->|Hne].
    + rewrite lookup_insert_eq. by intros [= <-].
    + rewrite lookup_insert_ne by done. apply Hwf.
Qed.

Lemma extends_instantiated s c :
  wf s → _lookup s !! Cls c = None → extends s (instantiated c s).
Proof.
  intros Hwf Hn. repeat split; simpl.
  - intros x v Hx. rewrite lookup_insert_ne; [done|]. congruence.
  - intros a o Ho. rewrite lookup_insert_ne; [done|].
    intros <-. pose proof (wf_fresh s Hwf _ (mk_is_Some _ _ Ho)). lia.
Qed.

Lemma wf_acquired s c : wf s → wf (acquired c s).
Proof.
  intros Hwf. unfold acquired. destruct (instance_of s c) eqn:E; [done|].
  apply wf_instantiated; [done|]. by apply instance_of_None.
Qed.

Lemma extends_acquired s c : wf s → extends s (acquired c s).
Proof.
  intros Hwf. unfold acquired. destruct (instance_of s c) eqn:E.
  - apply extends_refl.
  - apply extends_instantiated; [done|]. by apply instance_of_None.
Qed.

Lemma get_frame sc s r s1 :
  wf s → ScopeRegistry.get sc s = (r, s1) →
  wf s1 ∧ extends s s1 ∧
  (∀ x v, _lookup s1 !! x = Some v → _lookup s !! x = Some v ∨ r = Ok v).
Proof.
  intros Hwf.
  assert (∀ r, wf s ∧ extends s s ∧
    (∀ x v, _lookup s !! x = Some v → _lookup s !! x = Some v ∨ r = Ok v))
    as Hsame by (intros ?; split_and!; [done|apply extends_refl|eauto]).
  destruct (ScopeRegistry.resolve sc s) as [[x|e] s0] eqn:E.
  2: { pose proof (resolve_pure sc s) as Hp. rewrite E in Hp. simpl in Hp.
       subst s0. unfold ScopeRegistry.get. rewrite (bind_Err _ _ _ _ _ E).
       intros [= _ <-]. apply Hsame. }
  pose proof (resolve_pure sc s) as Hp. rewrite E in Hp. simpl in Hp. subst s0.
  pose proof (resolve_is_scope _ _ _ _ E) as Hsc.
  destruct x as [n|c|a|a];
    try (unfold ScopeRegistry.get; rewrite (bind_Ok _ _ _ _ _ E);
         intros [= _ <-]; apply Hsame).
  assert (instantiable c = true ∨ c = C_NamedScope) as Hc
    by (destruct c; [by left| by left| by left| by left| by left
                    | by right| done]).
  destruct (_lookup s !! Cls c) as [x|] eqn:El.
  - destruct (wf_class s Hwf c x El) as (a & o & d & -> & _).
    unfold ScopeRegistry.get in *. rewrite (bind_Ok _ _ _ _ _ E).
    unfold bind, get_state, lift.
    rewrite (dict_contains_Some _ (Cls c) _ eq_refl El). simpl.
    rewrite (resolve_class_present _ _ _ El).
    intros [= _ <-]. apply Hsame.
  - destruct Hc as [Hc| ->].
    + pose proof (get_class_absent _ _ El Hc) as G.
      unfold ScopeRegistry.get in *.
      rewrite (bind_Ok _ _ _ _ _ E).
      rewrite (bind_Ok _ _ _ _ _ (resolve_class_absent _ _ El
                 (instantiable_subclass _ Hc))) in G.
      rewrite G. intros [= <- <-].
      split_and!; [by apply wf_instantiated|by apply extends_instantiated|].
      intros x v. simpl. destruct (decide (x = Cls c)) as [->|Hne].
      * rewrite lookup_insert_eq. intros [= <-]. by right.
      * rewrite lookup_insert_ne by done. by left.
    + unfold ScopeRegistry.get. rewrite (bind_Ok _ _ _ _ _ E).
      unfold bind, get_state, lift.
      rewrite (dict_contains_None _ (Cls C_NamedScope) eq_refl El). simpl.
      intros [= _ <-]. apply Hsame.
Qed.

Section preserves.
Context (P : state → Prop).

Lemma pres_ret {A} (a : A) : preserves P (ret a).
Proof. by intros s. Qed.

Lemma pres_raise {A} e : preserves P (@raise A e).
Proof. by intros s. Qed.

Lemma pres_lift {A} (r : result A) : preserves P (lift r).
Proof. by intros s. Qed.

Lemma pres_get_state : preserves P get_state.
Proof. by intros s. Qed.

Lemma pres_modify f : (∀ s, P s → P (f s)) → preserves P (modify f).
Proof. intros H s. apply H. Qed.

Lemma pres_bind {A B} (m : M A) (k : A → M B) :
  preserves P m → (∀ a, preserves P (k a)) → preserves P (bind m k).
Proof.
  intros Hm Hk s HP. unfold bind. specialize (Hm s HP).
  destruct (m s) as [[a|e] s1]; simpl in *; [by apply Hk|done].
Qed.

Lemma pres_except {A} (m h : M A) :
  preserves P m → preserves P h → preserves P (except_KeyError m h).
Proof.
  intros Hm Hh s HP. unfold except_KeyError. specialize (Hm s HP).
  destruct (m s) as [[a|[]] s1]; simpl in *; try done. by apply Hh.
Qed.

Lemma pres_mapM {A B} (f : A → M B) l :
  (∀ a, preserves P (f a)) → preserves P (mapM f l).
Proof.
  intros Hf. induction l as [|x l IH]; simpl.
  - apply pres_ret.
  - apply pres_bind; [done|]. intros y.
    apply pres_bind; [done|]. intros ys. apply pres_ret.
Qed.
End preserves.

(** Solves [preserves P m] for a computation made of the monad's operations
    and of updates that keep [P]. *)
Ltac pres :=
  repeat first
    [ apply pres_ret | apply pres_raise | apply pres_lift
    | apply pres_get_state
    | apply pres_bind; [|intros ?]
    | apply pres_except
    | apply pres_mapM; intros ?
    | apply pres_modify; intros ? [? ?]; by split
    | match goal with
      | |- preserves _ (match ?x with _ => _ end) => destruct x
      | |- preserves _ (if ?x then _ else _) => destruct x
      | |- preserves _ (let '(_, _) := ?x in _) => destruct x
      end ].

Section tables.
Context (F : gmap string (factory * pyobj)) (D : gmap pyobj (gset string)).

Lemma tables_alloc : preserves (tables F D) alloc.
Proof. by intros s [? ?]. Qed.

Lemma tables_load a : preserves (tables F D) (load a).
Proof. intros s H. unfold load. by destruct (heap s !! a). Qed.

Lemma tables_store a o : preserves (tables F D) (store a o).
Proof. unfold store. pres. Qed.

Lemma tables_scope_new c : preserves (tables F D) (Scope.new c).
Proof.
  unfold Scope.new, Scope.__init__.
  pres; first [apply tables_alloc | apply tables_store].
Qed.

Lemma tables_scope_contains x k : preserves (tables F D) (scope_contains x k).
Proof.
  unfold scope_contains, Scope.__contains__, Scope.__getitem__,
    Scope.__key_transform__, Scope.get_instances.
  pres; apply tables_load.
Qed.

Lemma tables_scope_getitem x k : preserves (tables F D) (scope_getitem x k).
Proof.
  unfold scope_getitem, Scope.__getitem__,
    Scope.__key_transform__, Scope.get_instances.
  pres; apply tables_load.
Qed.

Lemma tables_scope_setitem x k v :
  preserves (tables F D) (scope_setitem x k v).
Proof.
  unfold scope_setitem, Scope.__setitem__,
    Scope.__key_transform__, Scope.get_instances.
  pres; first [apply tables_load | apply tables_store].
Qed.

Lemma tables_call f : preserves (tables F D) (Di.call f).
Proof. unfold Di.call. pres; try apply tables_alloc. Qed.

Lemma tables_resolve_one key : preserves (tables F D) (Di._resolve_one key).
Proof.
  unfold Di._resolve_one, Registry.get.
  pres; first [ apply tables_alloc | apply tables_load | apply tables_store
              | apply tables_scope_new | apply tables_scope_contains
              | apply tables_scope_getitem | apply tables_scope_setitem
              | apply tables_call ].
Qed.

Lemma tables_resolve key_or_keys more_keys with_keys :
  preserves (tables F D) (Di.resolve key_or_keys more_keys with_keys).
Proof. unfold Di.resolve. pres; apply tables_resolve_one. Qed.
End tables.

Lemma load_inv a s r s' :
  load a s = (r, s') →
  s' = s ∧ ((∃ o, heap s !! a = Some o ∧ r = Ok o) ∨ r = Err RuntimeError).
Proof. unfold load. destruct (heap s !! a); intros [= <- <-]; eauto. Qed.

Lemma load_eq s a o : heap s !! a = Some o → load a s = (Ok o, s).
Proof. intros H. unfold load. by rewrite H. Qed.

Lemma get_instances_none s a o :
  heap s !! a = Some o → instances o = None →
  Scope.get_instances a s = (Err AttributeError, s).
Proof.
  intros Ho Hd. unfold Scope.get_instances.
  rewrite (bind_Ok _ _ _ _ _ (load_eq _ _ _ Ho)). by rewrite Hd.
Qed.

Lemma getitem_pure a k s : snd (Scope.__getitem__ a k s) = s.
Proof.
  unfold Scope.__getitem__, Scope.__key_transform__, Scope.get_instances,
    bind, load, get_state, ret, raise.
  repeat case_match; by simplify_eq.
Qed.

Lemma scope_getitem_pure x k s : snd (scope_getitem x k s) = s.
Proof. destruct x; try done. apply getitem_pure. Qed.

Lemma scope_contains_pure x k s : snd (scope_contains x k s) = s.
Proof.
  destruct x as [| |a|]; try done. simpl.
  unfold Scope.__contains__, except_KeyError, bind.
  pose proof (getitem_pure a k s) as H.
  destruct (Scope.__getitem__ a k s) as [[v|e] s1]; simpl in *; subst; [done|].
  by destruct e.
Qed.

Lemma missing_pure obj s : snd (DependencyRegistry.missing obj s) = s.
Proof.
  unfold DependencyRegistry.missing, DependencyRegistry.get, bind, get_state,
    lift, ret.
  repeat case_match; by simplify_eq.
Qed.

Lemma call_frame f s r s2 :
  Di.call f s = (r, s2) →
  heap s2 = heap s ∧ _lookup s2 = _lookup s ∧ pid s2 = pid s ∧
  self s2 = self s ∧ next s ≤ next s2 ∧
  calls s2 = match f with Lambda _ => calls s | Fn g _ => g :: calls s end.
Proof.
  destruct f as [obj|g body]; simpl.
  - by intros [= _ <-].
  - unfold bind, alloc, modify, lift. simpl. intros [= _ <-]. simpl.
    repeat split; lia.
Qed.

Lemma wf_same_heap s s2 :
  wf s → heap s2 = heap s → _lookup s2 = _lookup s → next s ≤ next s2 → wf s2.
Proof.
  intros [] Hh Hl Hn. split; rewrite ?Hh, ?Hl; try done.
  intros a Ha. specialize (wf_fresh0 a Ha). lia.
Qed.

Lemma wf_call f s r s2 : wf s → Di.call f s = (r, s2) → wf s2.
Proof.
  intros Hwf (Hh & Hl & _ & _ & Hn & _)%call_frame.
  by apply (wf_same_heap s).
Qed.

Lemma setitem_frame a k v s r s' :
  wf s → Scope.__setitem__ a k v s = (r, s') →
  wf s' ∧ _lookup s' = _lookup s ∧ pid s' = pid s ∧ self s' = self s ∧
  calls s' = calls s ∧ heap_frame (ScopeInst a) s s'.
Proof.
  intros Hwf H.
  assert (heap_frame (ScopeInst a) s s) as Hrefl.
  { intros a' o Ho. exists o. done. }
  destruct (heap s !! a) as [o|] eqn:Ho.
  2: { unfold Scope.__setitem__, bind, load in H. rewrite Ho in H.
       injection H as _ <-. done. }
  destruct (instances o) as [d|] eqn:Hd.
  2: { unfold Scope.__setitem__ in H.
       rewrite (bind_Ok _ _ _ _ _ (load_eq _ _ _ Ho)) in H.
       destruct (so_class o);
         rewrite ?(bind_Ok _ _ _ _ _ (key_transform_eq s a o Ho _)),
                 ?(bind_Err _ _ _ _ _ (get_instances_none _ _ _ Ho Hd)) in H;
         by injection H as _ <-. }
  rewrite (setitem_eq s a o d Ho Hd) in H. injection H as _ <-.
  destruct (decide (so_class o = C_NoneScope)) as [Hc|Hc]; [done|].
  split_and!; try done.
  - destruct Hwf. split; simpl; try done.
    + intros c x Hx.
      destruct (wf_class0 c x Hx) as (a' & o' & d' & -> & Ho' & Hc' & Hd').
      destruct (decide (a' = a)) as [->|Hne].
      * eexists a, _, _. rewrite lookup_insert_eq. split_and!; try done.
        simpl. congruence.
      * exists a', o', d'. by rewrite lookup_insert_ne.
    + intros a' [o' Ho']. destruct (decide (a' = a)) as [->|Hne].
      * apply wf_fresh0. eauto.
      * rewrite lookup_insert_ne in Ho' by done. apply wf_fresh0. eauto.
    + intros a' o'. destruct (decide (a' = a)) as [->|Hne].
      * rewrite lookup_insert_eq. intros [= <-]. simpl. done.
      * rewrite lookup_insert_ne by done. apply wf_nonescope0.
  - intros a' o' Ho'. destruct (decide (a' = a)) as [->|Hne].
    + eexists. simpl. rewrite lookup_insert_eq. split; [done|].
      simpl. assert (o' = o) as -> by congruence. done.
    + exists o'. simpl. by rewrite lookup_insert_ne.
Qed.

Lemma scope_setitem_frame x k v s r s' :
  wf s → scope_setitem x k v s = (r, s') →
  wf s' ∧ _lookup s' = _lookup s ∧ pid s' = pid s ∧ self s' = self s ∧
  calls s' = calls s ∧ heap_frame x s s'.
Proof.
  intros Hwf H.
  destruct x as [| |a|]; try (injection H as _ <-; split_and!; try done;
                              intros a' o Ho; by exists o).
  by apply (setitem_frame a k v s r).
Qed.

(** What one resolution leaves of a well-formed state: the invariant, every
    entry of the scope registry, and every scope instance, whose store is
    the same unless it is the scope the key is bound to. *)
Lemma resolve_one_frame key s r s' :
  wf s → Di._resolve_one key s = (r, s') →
  wf s' ∧ pid s' = pid s ∧ self s' = self s ∧
  (∀ x v, _lookup s !! x = Some v → _lookup s' !! x = Some v) ∧
  (∀ x v, _lookup s' !! x = Some v →
     _lookup s !! x = Some v ∨ bound_scope s key = Some v) ∧
  (∀ a o, heap s !! a = Some o →
     ∃ o', heap s' !! a = Some o' ∧ so_class o' = so_class o ∧
           so_name o' = so_name o ∧
           (bound_scope s key ≠ Some (ScopeInst a) → o' = o)).
Proof.
  intros Hwf H.
  assert (wf s ∧ pid s = pid s ∧ self s = self s ∧
    (∀ x v, _lookup s !! x = Some v → _lookup s !! x = Some v) ∧
    (∀ x v, _lookup s !! x = Some v →
       _lookup s !! x = Some v ∨ bound_scope s key = Some v) ∧
    (∀ a o, heap s !! a = Some o →
       ∃ o', heap s !! a = Some o' ∧ so_class o' = so_class o ∧
             so_name o' = so_name o ∧
             (bound_scope s key ≠ Some (ScopeInst a) → o' = o))) as Hsame.
  { split_and!; eauto. }
  destruct key as [k|l]; simpl in H; [|by injection H as _ <-].
  destruct (_factories s !! k) as [[f sc]|] eqn:Hb.
  2: { rewrite (bind_Err _ _ _ _ _ (Registry_get_unbound _ _ Hb)) in H.
       by injection H as _ <-. }
  rewrite (bind_Ok _ _ _ _ _ (Registry_get_eq _ _ _ Hb)) in H.
  apply bind_inv in H as [(m & s0 & Hm & H)|(e & Hm & ->)].
  2: { pose proof (missing_pure (Str k) s) as Hp. rewrite Hm in Hp.
       simpl in Hp. by subst. }
  pose proof (missing_pure (Str k) s) as Hp. rewrite Hm in Hp.
  simpl in Hp. subst s0.
  destruct (truthy m); [by injection H as _ <-|].
  assert (∀ r1 s1, ScopeRegistry.get sc s = (r1, s1) →
            bound_scope s (AStr k)
            = match r1 with Ok x => Some x | Err _ => None end) as Hbound.
  { intros r1 s1 E. simpl. by rewrite Hb, E. }
  apply bind_inv in H as [(x & s1 & Hg & H)|(e & Hg & ->)].
  2: { destruct (get_frame _ _ _ _ Hwf Hg) as (Hwf1 & Hext & Hnew).
       destruct Hext as (_ & _ & ? & ? & Hl & Hh).
       split_and!; try done.
       - intros y v Hy. destruct (Hnew y v Hy) as [?|?]; [by left|done].
       - intros a o Ho. exists o. eauto. }
  destruct (get_frame _ _ _ _ Hwf Hg) as (Hwf1 & Hext & Hnew).
  destruct Hext as (_ & _ & Hpid & Hself & Hl & Hh).
  rewrite (Hbound _ _ Hg).
  assert (wf s1 ∧ pid s1 = pid s ∧ self s1 = self s ∧
    (∀ x v, _lookup s !! x = Some v → _lookup s1 !! x = Some v) ∧
    (∀ y v, _lookup s1 !! y = Some v →
       _lookup s !! y = Some v ∨ Some x = Some v) ∧
    (∀ a o, heap s !! a = Some o →
       ∃ o', heap s1 !! a = Some o' ∧ so_class o' = so_class o ∧
             so_name o' = so_name o ∧
             (Some x ≠ Some (ScopeInst a) → o' = o))) as Hs1.
  { split_and!; try done.
    - intros y v Hy. destruct (Hnew y v Hy) as [?|[= ->]]; eauto.
    - intros a o Ho. exists o. eauto. }
  apply bind_inv in H as [(b & s2 & Hc & H)|(e & Hc & ->)].
  2: { pose proof (scope_contains_pure x k s1) as Hp. rewrite Hc in Hp.
       simpl in Hp. by subst. }
  pose proof (scope_contains_pure x k s1) as Hp. rewrite Hc in Hp.
  simpl in Hp. subst s2.
  destruct b.
  { pose proof (scope_getitem_pure x k s1) as Hp. rewrite H in Hp.
    simpl in Hp. by subst. }
  apply bind_inv in H as [(v & s2 & Hcall & H)|(e & Hcall & ->)].
  2: { destruct (call_frame _ _ _ _ Hcall) as (Hh2 & Hl2 & Hp2 & Hs2 & _).
       pose proof (wf_call _ _ _ _ Hwf1 Hcall) as Hwf2.
       destruct Hs1 as (_ & _ & _ & A & B & C).
       rewrite Hl2, Hh2. split_and!; try done; congruence. }
  destruct (call_frame _ _ _ _ Hcall) as (Hh2 & Hl2 & Hp2 & Hs2 & _).
  pose proof (wf_call _ _ _ _ Hwf1 Hcall) as Hwf2.
  apply bind_inv in H as [([] & s3 & Hset & H)|(e & Hset & ->)].
  1: injection H as _ <-.
  all: destruct (scope_setitem_frame _ _ _ _ _ _ Hwf2 Hset)
         as (Hwf3 & Hl3 & Hp3 & Hs3 & _ & Hf3);
       destruct Hs1 as (_ & _ & _ & A & B & C);
       rewrite Hl3, Hl2; split_and!; try done; try congruence;
       intros a o Ho; specialize (Hh a o Ho); rewrite <- Hh2 in Hh;
       destruct (Hf3 a o Hh) as (o' & Ho' & ? & ? & Hsame');
       exists o'; split_and!; try done;
       intros Hne; apply Hsame'; congruence.
Qed.

(** ** Construction and registration *)

Lemma Di_new_eq pid0 a : Di_new pid0 a = (Ok tt, initial pid0 a).
Proof. reflexivity. Qed.

Lemma wf_initial pid0 a : wf (initial pid0 a).
Proof.
  split; simpl.
  1-4: reflexivity.
  - intros c x. unfold initial_lookup.
    rewrite !lookup_insert_ne by done. by rewrite lookup_empty.
  - intros a' [o Ho]. by rewrite lookup_empty in Ho.
  - intros a' o Ho. by rewrite lookup_empty in Ho.
Qed.

Lemma wf_bound key f scope s : wf s → wf (bound key f scope s).
Proof. by intros []. Qed.

Lemma Registry_add_ok key f scope s x :
  ScopeRegistry.resolve scope s = (Ok x, s) →
  Registry.add key f scope s = (Ok tt, bound key f x s).
Proof. intros H. unfold Registry.add. by rewrite (bind_Ok _ _ _ _ _ H). Qed.

Lemma Registry_add_err key f scope s e :
  ScopeRegistry.resolve scope s = (Err e, s) →
  Registry.add key f scope s = (Err e, s).
Proof. intros H. unfold Registry.add. by rewrite (bind_Err _ _ _ _ _ H). Qed.

Lemma register_ok key f scope s x :
  ScopeRegistry.resolve scope s = (Ok x, s) →
  Di.register key (Some f) scope s = (Ok (Di.Factory f), bound key f x s).
Proof.
  intros H. unfold Di.register.
  by rewrite (bind_Ok _ _ _ _ _ (Registry_add_ok key f _ _ _ H)).
Qed.

Lemma register_err key f scope s e :
  ScopeRegistry.resolve scope s = (Err e, s) →
  Di.register key (Some f) scope s = (Err e, s).
Proof.
  intros H. unfold Di.register.
  by rewrite (bind_Err _ _ _ _ _ (Registry_add_err key f _ _ _ H)).
Qed.

Lemma register_singleton key f s :
  wf s →
  Di.register key (Some f) (Str "singleton") s
  = (Ok (Di.Factory f), bound key f (Cls C_SingletonScope) s).
Proof.
  intros Hwf. apply register_ok.
  by apply resolve_name; [apply Hwf|].
Qed.

Lemma register_none key f s :
  wf s →
  Di.register key (Some f) (Str "none") s
  = (Ok (Di.Factory f), bound key f (Cls C_NoneScope) s).
Proof.
  intros Hwf. apply register_ok.
  by apply resolve_name; [apply Hwf|].
Qed.

Lemma register_instance_eq key obj s :
  wf s →
  Di.register_instance key obj s
  = (Ok tt, bound key (Lambda obj) (Cls C_SingletonScope) s).
Proof.
  intros Hwf. unfold Di.register_instance, Registry.add_instance.
  apply Registry_add_ok. by apply resolve_name; [apply Hwf|].
Qed.

Lemma resolve_single k s :
  Di.resolve (AStr k) [] false s
  = match Di._resolve_one (AStr k) s with
    | (Ok v, s') => (Ok (Di.Value v), s')
    | (Err e, s') => (Err e, s')
    end.
Proof.
  unfold Di.resolve, Di._coerce_key_or_keys. cbn [app mapM].
  unfold bind, ret.
  by destruct (Di._resolve_one (AStr k) s) as [[v|e] s'].
Qed.

Lemma filter_none {A} (P : A → Prop) `{∀ x, Decision (P x)} (l : list A) :
  (∀ x, x ∈ l → ¬ P x) → filter P l = [].
Proof.
  induction l as [|x l IH]; [done|]. intros Hl.
  rewrite filter_cons_False by (apply Hl; left).
  apply IH. intros y Hy. apply Hl. by right.
Qed.

(** ** Small checks of the model *)

Example name_of_SingletonScope : Scope.name C_SingletonScope = Ok "singleton".
Proof. reflexivity. Qed.

Example name_of_Scope : Scope.name C_Scope = Ok "".
Proof. reflexivity. Qed.

Example build_registers_four_names :
  map_to_list initial_lookup
  ≡ₚ [(Str "singleton", Cls C_SingletonScope); (Str "process", Cls C_ProcessScope);
      (Str "thread", Cls C_ThreadScope); (Str "none", Cls C_NoneScope)].
Proof. vm_compute map_to_list. by apply (bool_decide_unpack _). Qed.

Example process_key : transformed C_ProcessScope fresh_di "db" = "7_db".
Proof. reflexivity. Qed.

Example coerce_variadic :
  Di._coerce_key_or_keys (AStr "a") [AStr "b"] = [AStr "a"; AStr "b"].
Proof. reflexivity. Qed.

Example coerce_str : Di._coerce_key_or_keys (AStr "abc") [] = [AStr "abc"].
Proof. reflexivity. Qed.

Example coerce_list :
  Di._coerce_key_or_keys (AList ["a"; "b"]) [] = [AStr "a"; AStr "b"].
Proof. reflexivity. Qed.

Example process_scope_stores_under_pid :
  let s := snd ((Di.register "p" (Some (Fn 1 make_object)) (Str "process") ;;;
                 Di.resolve (AStr "p") [] false) fresh_di) in
  (heap s !! 101 ≫= instances) = Some {["7_p" := Obj 102]}.
Proof. vm_compute. reflexivity. Qed.

(** * The claims *)

(** ** C1: declared dependencies and the unresolvable-dependency error *)

(** C1. When [K] is bound and has a non-empty set of declared dependencies,
    [resolve(K)] raises [UnresolvableError] carrying [K] and the iterator
    over the unbound declared keys, without changing the state; it does so
    even when every declared key is bound, the iterator then yielding
    nothing. ([missing] is a lazy iterator and [if missing:] tests the
    iterator object, not what it yields.) *)
Theorem C1_declared_deps_always_unresolvable s K b deps :
  _factories s !! K = Some b →
  _depends_obj s !! Str K = Some deps →
  deps ≠ ∅ →
  Di.resolve (AStr K) [] false s
  = (Err (UnresolvableError (AStr K)
            (MIter (IFilterFalse
               (filter (fun d => Registry.has s d = false) (elements deps))))),
     s)
  ∧ ((∀ d, d ∈ deps → is_Some (_factories s !! d)) →
     filter (fun d => Registry.has s d = false) (elements deps) = []).
Proof.
  intros Hb Hd Hne. split.
  - rewrite resolve_single. unfold Di._resolve_one.
    step (Registry_get_eq _ _ _ Hb). destruct b as [f sc].
    step (missing_declared _ _ _ Hd Hne). done.
  - intros Hall. apply filter_none.
    intros d Hin%elem_of_elements. apply Hall, has_true in Hin.
    by rewrite Hin.
Qed.

(** The container of the failing input: ['a'], ['b'] and ['K'] are bound and
    ['K'] declares ['a'] and ['b']; [resolve('K')] raises all the same. *)
Lemma C1_witness :
  Di.resolve (AStr "K") [] false abk_deps_di
  = (Err (UnresolvableError (AStr "K") (MIter (IFilterFalse []))), abk_deps_di)
  ∧ is_Some (_factories abk_deps_di !! "a")
  ∧ is_Some (_factories abk_deps_di !! "b").
Proof.
  assert (_factories abk_deps_di !! "K"
          = Some (Fn 3 make_object, Cls C_SingletonScope)) as Hb
    by (vm_compute; reflexivity).
  assert (_depends_obj abk_deps_di !! Str "K" = Some ({["b"]} ∪ ({["a"]} ∪ ∅)))
    as Hd by (vm_compute; reflexivity).
  assert (({["b"]} ∪ ({["a"]} ∪ ∅) : gset string) ≠ ∅) as Hne
    by (vm_compute; discriminate).
  destruct (C1_declared_deps_always_unresolvable _ _ _ _ Hb Hd Hne) as [H _].
  split; [|split; vm_compute; eauto].
  rewrite H. vm_compute. reflexivity.
Defined.

(** ** C4: [depends_on] as a decorator *)

Example keys_or_keys_unbound :
  "keys_or_keys" ∉ ["self"; "key_or_keys"; "obj"] ++ module_globals.
Proof. by apply (bool_decide_unpack _). Qed.

(** C4. Called without [obj], [depends_on] raises [NameError]: the branch
    reads the variable [keys_or_keys], which is neither a parameter (the
    parameter is [key_or_keys]) nor a name of the module. No callable is
    returned and nothing is recorded. *)
Theorem C4_depends_on_without_obj_raises key_or_keys s :
  Di.depends_on key_or_keys None s = (Err (NameError "keys_or_keys"), s).
Proof. reflexivity. Qed.

(** ** C8: a [NamedScope] passed by reference *)

(** C8. A [NamedScope] made by [named_scope(name)] has no attribute
    [instances], its [__init__] not calling the one of [Scope]: the
    membership test, the read and the write each raise [AttributeError].
    Registering a binding with the instance as scope raises [TypeError]
    before that, the instance being unhashable, and no binding is added;
    and were the binding in place, [resolve] would raise [TypeError] for
    the same reason, without calling the factory. *)
Theorem C8_named_scope_unusable s name key f k v :
  let ns := ScopeInst (next s) in
  let s1 := snd (Di.named_scope name s) in
  Di.named_scope name s = (Ok ns, s1) ∧
  scope_contains ns k s1 = (Err AttributeError, s1) ∧
  scope_getitem ns k s1 = (Err AttributeError, s1) ∧
  scope_setitem ns k v s1 = (Err AttributeError, s1) ∧
  Di.register key (Some f) ns s1 = (Err TypeError, s1) ∧
  (no_deps s1 key →
   Di.resolve (AStr key) [] false (bound key f ns s1)
   = (Err TypeError, bound key f ns s1)).
Proof.
  simpl. split; [done|].
  assert (heap (snd (Di.named_scope name s)) !! next s
          = Some {| so_class := C_NamedScope; instances := None;
                    so_name := Some name |}) as Ho
    by (simpl; apply lookup_insert_eq).
  destruct (uninitialised_scope_ops _ _ _ k v Ho eq_refl eq_refl)
    as (Hc & Hg & Hs).
  split_and!; try done.
  intros Hnd. rewrite resolve_single. unfold Di._resolve_one.
  step (Registry_get_eq (bound key f (ScopeInst (next s))
                           (snd (Di.named_scope name s))) key _
          (lookup_insert_eq _ _ _)).
  step (missing_no_deps (bound key f (ScopeInst (next s))
                           (snd (Di.named_scope name s))) key Hnd).
  done.
Qed.

(** On a new container, with the name ['adhoc']. *)
Lemma C8_witness :
  let s1 := snd (Di.named_scope (Str "adhoc") fresh_di) in
  Di.named_scope (Str "adhoc") fresh_di = (Ok (ScopeInst 101), s1) ∧
  scope_contains (ScopeInst 101) "k" s1 = (Err AttributeError, s1) ∧
  Di.register "k" (Some (Fn 1 make_object)) (ScopeInst 101) s1
  = (Err TypeError, s1) ∧
  fst (Di.resolve (AStr "k") [] false
         (bound "k" (Fn 1 make_object) (ScopeInst 101) s1)) = Err TypeError.
Proof.
  destruct (C8_named_scope_unusable fresh_di (Str "adhoc") "k"
              (Fn 1 make_object) "k" (Obj 0)) as (H1 & H2 & _ & _ & H5 & H6).
  split_and!; [exact H1|exact H2|exact H5|].
  exact (f_equal fst (H6 (or_introl eq_refl))).
Defined.

(** ** C9: the key ["di"] *)

(** C9, counterexample. A container just built by [Di()] has no binding for
    ["di"], and resolving it raises [KeyError]. *)
Lemma C9_new_container_has_no_di :
  Di_new 7 100 = (Ok tt, fresh_di) ∧
  _factories fresh_di !! "di" = None ∧
  fst (Di.resolve (AStr "di") [] false fresh_di) = Err KeyError.
Proof. split_and!; vm_compute; reflexivity. Qed.

(** C9, amended. In the container the module builds as [di], the key ["di"]
    is bound in the singleton scope to a factory that returns the container
    itself, and resolving ["di"] returns the container. *)
Theorem C9_module_di_resolves_to_itself pid0 a :
  let s := snd (module_di pid0 a) in
  fst (module_di pid0 a) = Ok tt ∧
  self s = a ∧
  _factories s !! "di" = Some (Lambda (Obj a), Cls C_SingletonScope) ∧
  fst (Di.resolve (AStr "di") [] false s) = Ok (Di.Value (Obj (self s))).
Proof.
  assert (module_di pid0 a
          = (Ok tt, bound "di" (Lambda (Obj a)) (Cls C_SingletonScope)
                      (initial pid0 a))) as ->.
  { unfold module_di.
    pose proof (Di_new_eq pid0 a) as H. unfold Di_new in H.
    rewrite (bind_Ok _ _ _ _ _ H).
    apply register_instance_eq, wf_initial. }
  simpl. split_and!; try done.
  rewrite resolve_single.
  rewrite (resolve_one_miss _ "di" (Lambda (Obj a)) C_SingletonScope);
    try done.
  - apply wf_bound, wf_initial.
  - by left.
Qed.

(** ** C6: the scope reference is checked by [register] *)

(** C6. [register(key, factory, scope)]:
    - fails, changing nothing, when [scope] is not a valid scope reference;
    - binds [key] when [scope] is a registered identifier of an object with
      the mapping interface, or an unregistered class with the mapping
      interface;
    - but raises [TypeError], changing nothing, when [scope] is an instance
      of [Scope] or of a subclass, although that is a valid scope reference:
      [scope in self._lookup] hashes the instance, and a mapping is
      unhashable. *)
Theorem C6_register_checks_scope s key f :
  (∀ scope, ¬ valid_scope_ref s scope →
     ∃ e, Di.register key (Some f) scope s = (Err e, s)) ∧
  (∀ scope x, hashable scope = true → _lookup s !! scope = Some x →
     ScopeRegistry.is_scope x = Ok true →
     Di.register key (Some f) scope s = (Ok (Di.Factory f), bound key f x s)) ∧
  (∀ c, subclass_of_Scope c = true → _lookup s !! Cls c = None →
     Di.register key (Some f) (Cls c) s
     = (Ok (Di.Factory f), bound key f (Cls c) s)) ∧
  (∀ a, valid_scope_ref s (ScopeInst a) ∧
        Di.register key (Some f) (ScopeInst a) s = (Err TypeError, s)).
Proof.
  split_and!.
  - intros scope Hinv.
    destruct (hashable scope) eqn:Hh.
    2: { destruct scope; try done. exfalso. apply Hinv. by right. }
    destruct (_lookup s !! scope) as [x|] eqn:El.
    + assert (ScopeRegistry.is_scope x ≠ Ok true) as Hx.
      { intros Hx. apply Hinv. left. eauto. }
      assert (∃ e, ScopeRegistry.resolve scope s = (Err e, s)) as [e He].
      { unfold ScopeRegistry.resolve, bind, get_state, lift.
        rewrite (dict_contains_Some _ scope _ Hh El), El. simpl.
        destruct (ScopeRegistry.is_scope x) as [[]|e]; [done|..]; eauto. }
      exists e. by apply register_err.
    + assert (ScopeRegistry.is_scope scope ≠ Ok true) as Hx.
      { intros Hx. apply Hinv. by right. }
      assert (∃ e, ScopeRegistry.resolve scope s = (Err e, s)) as [e He].
      { unfold ScopeRegistry.resolve, bind, get_state, lift.
        rewrite (dict_contains_None _ scope Hh El). simpl.
        destruct (ScopeRegistry.is_scope scope) as [[]|e]; [done|..]; eauto. }
      exists e. by apply register_err.
  - intros scope x Hh El Hx. apply register_ok.
    unfold ScopeRegistry.resolve, bind, get_state, lift.
    rewrite (dict_contains_Some _ scope _ Hh El), El. simpl. by rewrite Hx.
  - intros c Hc El. apply register_ok. by apply resolve_class_absent.
  - intros a. split; [by right|]. by apply register_err.
Qed.

(** On a new container: ['bogus'] is refused and nothing is bound; the name
    ['none'] and the class [Scope] are accepted; an instance made by
    [scope()] is refused. *)
Lemma C6_witness :
  (∃ e, Di.register "k" (Some (Fn 1 make_object)) (Str "bogus") fresh_di
        = (Err e, fresh_di)) ∧
  fst (Di.register "k" (Some (Fn 1 make_object)) (Str "none") fresh_di)
  = Ok (Di.Factory (Fn 1 make_object)) ∧
  fst (Di.register "k" (Some (Fn 1 make_object)) (Cls C_Scope) fresh_di)
  = Ok (Di.Factory (Fn 1 make_object)) ∧
  fst ((sc <- Di.scope ;; Di.register "k" (Some (Fn 1 make_object)) sc) fresh_di)
  = Err TypeError.
Proof.
  destruct (C6_register_checks_scope fresh_di "k" (Fn 1 make_object))
    as (Hbad & Hname & Hcls & Hinst).
  split_and!.
  - apply Hbad. intros [[_ (x & Hx & _)]|Hx]; vm_compute in Hx; discriminate.
  - rewrite (Hname (Str "none") (Cls C_NoneScope)); reflexivity.
  - rewrite Hcls; reflexivity.
  - reflexivity.
Defined.

(** ** C10: what [resolve] leaves unchanged *)

Lemma resolve_single_state k with_keys s :
  snd (Di.resolve (AStr k) [] with_keys s) = snd (Di._resolve_one (AStr k) s).
Proof.
  unfold Di.resolve, Di._coerce_key_or_keys. cbn [app mapM].
  unfold bind, ret.
  destruct (Di._resolve_one (AStr k) s) as [[v|e] s']; by destruct with_keys.
Qed.

Section nested_resolution.
Context (uses : fid → list string).

(** A factory that resolves nothing runs as [Di.call] has it. *)
Lemma nested_call_plain r f s :
  (∀ g body, f = Fn g body → uses g = []) →
  Nested.call uses r f s = Di.call f s.
Proof.
  destruct f as [obj|g body]; [done|]. intros H.
  unfold Nested.call. rewrite (H g body eq_refl). reflexivity.
Qed.

Lemma Registry_get_inv k s r s' :
  Registry.get k s = (r, s') →
  s' = s ∧ match r with
           | Ok b => _factories s !! k = Some b
           | Err _ => _factories s !! k = None
           end.
Proof.
  unfold Registry.get, bind, get_state.
  destruct (_factories s !! k) as [b|] eqn:E; by intros [= <- <-].
Qed.

(** When the factory of [k] resolves nothing, one resolution of [k] is the
    one of [Di._resolve_one]. *)
Lemma nested_resolve_one_plain depth k s :
  (∀ g body sc, _factories s !! k = Some (Fn g body, sc) → uses g = []) →
  Nested._resolve_one uses (S depth) (AStr k) s = Di._resolve_one (AStr k) s.
Proof.
  intros Hu. cbn [Nested._resolve_one]. unfold Di._resolve_one, bind.
  destruct (Registry.get k s) as [[[f sc]|e] s1] eqn:E; [|done].
  apply Registry_get_inv in E as [-> Hb].
  destruct (DependencyRegistry.missing (Str k) s) as [[m|e] s1]; [|done].
  destruct (truthy m); [done|].
  destruct (ScopeRegistry.get sc s1) as [[x|e] s2]; [|done].
  destruct (scope_contains x k s2) as [[[]|e] s3]; [done| |done].
  rewrite nested_call_plain; [done|].
  intros g body ->. by apply (Hu g body sc).
Qed.

Lemma tables_nested_resolve_one F D depth :
  ∀ key, preserves (tables F D) (Nested._resolve_one uses depth key).
Proof.
  induction depth as [|depth IH]; intros key; cbn [Nested._resolve_one].
  - apply pres_raise.
  - unfold Nested.call, Registry.get.
    pres; first [ apply tables_alloc | apply tables_load | apply tables_store
                | apply tables_scope_new | apply tables_scope_contains
                | apply tables_scope_getitem | apply tables_scope_setitem
                | apply IH ].
Qed.

Lemma tables_nested_resolve F D depth key_or_keys more_keys with_keys :
  preserves (tables F D)
    (Nested.resolve uses depth key_or_keys more_keys with_keys).
Proof. unfold Nested.resolve. pres; apply tables_nested_resolve_one. Qed.

Lemma keeps_scopes_refl s : keeps_scopes s s.
Proof. split_and!; eauto. Qed.

Lemma keeps_scopes_same s s' :
  heap s' = heap s → _lookup s' = _lookup s → pid s' = pid s →
  self s' = self s → keeps_scopes s s'.
Proof.
  intros Hh Hl Hp Hs. split_and!; [done|done|by rewrite Hl|].
  intros a o Ho. exists o. by rewrite Hh.
Qed.

Lemma keeps_scopes_trans s1 s2 s3 :
  keeps_scopes s1 s2 → keeps_scopes s2 s3 → keeps_scopes s1 s3.
Proof.
  intros (P1 & S1 & L1 & H1) (P2 & S2 & L2 & H2).
  split_and!; [congruence|congruence|eauto|].
  intros a o Ho. destruct (H1 a o Ho) as (o1 & Ho1 & C1 & N1).
  destruct (H2 a o1 Ho1) as (o2 & Ho2 & C2 & N2).
  exists o2. split_and!; [done|congruence|congruence].
Qed.

Section kept.
Context (s0 : state).

Lemma kept_step {A} (m : M A) :
  (∀ s r s', wf s → m s = (r, s') → wf s' ∧ keeps_scopes s s') →
  preserves (kept s0) m.
Proof.
  intros H s [Hwf Hk]. destruct (m s) as [r s'] eqn:E. simpl.
  destruct (H s r s' Hwf E) as [Hwf' Hk'].
  split; [done|]. by apply (keeps_scopes_trans s0 s s').
Qed.

Lemma kept_pure {A} (m : M A) : (∀ s, snd (m s) = s) → preserves (kept s0) m.
Proof. intros H s Hs. by rewrite H. Qed.

Lemma kept_get sc : preserves (kept s0) (ScopeRegistry.get sc).
Proof.
  apply kept_step. intros s r s' Hwf E.
  destruct (get_frame _ _ _ _ Hwf E) as (Hwf' & (_ & _ & ? & ? & ? & Hh) & _).
  split; [done|]. split_and!; try done.
  intros a o Ho. exists o. eauto.
Qed.

Lemma kept_setitem x k v : preserves (kept s0) (scope_setitem x k v).
Proof.
  apply kept_step. intros s r s' Hwf E.
  destruct (scope_setitem_frame _ _ _ _ _ _ Hwf E)
    as (Hwf' & Hl & ? & ? & _ & Hf).
  split; [done|]. split_and!; try done.
  - intros y w. by rewrite Hl.
  - intros a o Ho. destruct (Hf a o Ho) as (o' & ? & ? & ? & _). eauto.
Qed.

Lemma kept_alloc : preserves (kept s0) alloc.
Proof.
  apply kept_step. intros s r s' Hwf [= _ <-].
  split; [|by apply keeps_scopes_same].
  apply (wf_same_heap s); [done|done|done|simpl; lia].
Qed.

Lemma kept_log f : preserves (kept s0) (modify (fun s => set_calls (f :: calls s) s)).
Proof.
  apply kept_step. intros s r s' Hwf [= _ <-].
  split; [|by apply keeps_scopes_same].
  by apply (wf_same_heap s).
Qed.

Lemma kept_nested_resolve_one depth :
  ∀ key, preserves (kept s0) (Nested._resolve_one uses depth key).
Proof.
  induction depth as [|depth IH]; intros key; cbn [Nested._resolve_one].
  - apply pres_raise.
  - destruct key as [k|l]; [|apply pres_raise].
    apply pres_bind.
    { apply kept_pure. intros s. destruct (Registry.get k s) as [r s'] eqn:E.
      by apply Registry_get_inv in E as [-> _]. }
    intros [f sc]. apply pres_bind; [apply kept_pure, missing_pure|].
    intros m. destruct (truthy m); [apply pres_raise|].
    apply pres_bind; [apply kept_get|]. intros x.
    apply pres_bind; [apply kept_pure, scope_contains_pure|]. intros [].
    { apply kept_pure, scope_getitem_pure. }
    apply pres_bind.
    2: { intros v. apply pres_bind; [apply kept_setitem|].
         intros _. apply pres_ret. }
    destruct f as [obj|g body]; [apply pres_ret|]. cbn [Nested.call].
    apply pres_bind; [apply kept_alloc|]. intros a.
    apply pres_bind; [apply kept_log|]. intros _.
    apply pres_bind; [apply pres_mapM, IH|]. intros _. apply pres_lift.
Qed.

Lemma kept_nested_resolve depth key_or_keys more_keys with_keys :
  preserves (kept s0) (Nested.resolve uses depth key_or_keys more_keys with_keys).
Proof.
  unfold Nested.resolve. apply pres_bind.
  - apply pres_mapM, kept_nested_resolve_one.
  - intros l. destruct with_keys, more_keys; try apply pres_ret;
      match goal with
      | |- preserves _ (match ?x with _ => _ end) =>
          destruct x; first [apply pres_ret | apply pres_raise]
      end.
Qed.
End kept.

(** Nested or not, a resolution keeps the invariant and the scopes. *)
Lemma nested_resolve_frame depth key_or_keys more_keys with_keys s :
  wf s →
  let s' := snd (Nested.resolve uses depth key_or_keys more_keys with_keys s) in
  wf s' ∧ keeps_scopes s s'.
Proof.
  intros Hwf.
  apply (kept_nested_resolve s depth key_or_keys more_keys with_keys s).
  split; [done|apply keeps_scopes_refl].
Qed.

Lemma nested_resolve_plain depth k with_keys s :
  (∀ g body sc, _factories s !! k = Some (Fn g body, sc) → uses g = []) →
  Nested.resolve uses (S depth) (AStr k) [] with_keys s
  = Di.resolve (AStr k) [] with_keys s.
Proof.
  intros Hu. unfold Nested.resolve, Di.resolve, Di._coerce_key_or_keys.
  cbn [app mapM]. unfold bind at 1 2 3 4.
  by rewrite (nested_resolve_one_plain depth k s Hu).
Qed.
End nested_resolution.

(** C10, counterexample. ['svc'] is bound in the None scope to a factory
    that resolves ['db'], and ['db'] is bound in the singleton scope, which
    holds no instance for it: [resolve('svc')] returns the new object and
    leaves the instance of ['db'] in the store of the singleton scope, a
    scope ['svc'] is not bound to. *)
Lemma C10_factory_that_resolves_writes_another_scope :
  let s' := snd (Nested.resolve svc_uses 2 (AStr "svc") [] false svc_di) in
  fst (Nested.resolve svc_uses 2 (AStr "svc") [] false svc_di)
  = Ok (Di.Value (Obj 104)) ∧
  _factories svc_di !! "svc" = Some (Fn 2 make_object, Cls C_NoneScope) ∧
  bound_scope svc_di (AStr "svc") = Some (ScopeInst 103) ∧
  instance_of svc_di C_SingletonScope = Some 101 ∧
  instance_of s' C_SingletonScope = Some 101 ∧
  store_of svc_di 101 = Some {["x" := Obj 102]} ∧
  store_of s' 101 = Some (<["db" := Obj 105]> {["x" := Obj 102]}).
Proof. split_and!; vm_compute; reflexivity. Qed.

(** C10, amended. Whether it returns or raises, [resolve(K)] leaves the
    binding table and the declared-dependency map as they were, also when
    the factories it calls resolve further keys through the container; from
    a well-formed state it keeps the invariant, every entry of the scope
    registry and every scope instance with its class and its name, so that
    it changes nothing but instance stores and what lazy instantiation adds.
    When the factory of [K] resolves nothing, [resolve(K)] moreover adds to
    the scope registry at most an entry for the scope [K] is bound to, and
    leaves every store as it was but the one of the scope [K] is bound
    to. *)
Theorem C10_resolve_frame uses depth s K with_keys :
  let s' := snd (Nested.resolve uses (S depth) (AStr K) [] with_keys s) in
  _factories s' = _factories s ∧
  _depends_obj s' = _depends_obj s ∧
  (wf s → wf s' ∧ keeps_scopes s s') ∧
  ((∀ g body sc, _factories s !! K = Some (Fn g body, sc) → uses g = []) →
   Nested.resolve uses (S depth) (AStr K) [] with_keys s
   = Di.resolve (AStr K) [] with_keys s ∧
   (wf s →
    (∀ x v, _lookup s !! x = Some v → _lookup s' !! x = Some v) ∧
    (∀ x v, _lookup s' !! x = Some v →
       _lookup s !! x = Some v ∨ bound_scope s (AStr K) = Some v) ∧
    (∀ a o, heap s !! a = Some o →
       ∃ o', heap s' !! a = Some o' ∧ so_class o' = so_class o ∧
             so_name o' = so_name o ∧
             (bound_scope s (AStr K) ≠ Some (ScopeInst a) → o' = o)))).
Proof.
  cbv zeta.
  destruct (tables_nested_resolve uses (_factories s) (_depends_obj s)
              (S depth) (AStr K) [] with_keys s) as [HF HD]; [done|].
  split_and!; try done.
  - intros Hwf. by apply nested_resolve_frame.
  - intros Hu. rewrite (nested_resolve_plain uses depth K with_keys s Hu).
    split; [done|].
    intros Hwf. rewrite resolve_single_state.
    destruct (Di._resolve_one (AStr K) s) as [r s'] eqn:E.
    destruct (resolve_one_frame _ _ _ _ Hwf E) as (_ & _ & _ & A & B & C).
    done.
Qed.

Lemma abk_di_eq :
  abk_di = bound "K" (Fn 3 make_object) (Cls C_SingletonScope)
             (bound "b" (Fn 2 make_object) (Cls C_SingletonScope)
                (bound "a" (Fn 1 make_object) (Cls C_SingletonScope)
                   (initial 7 100))).
Proof. reflexivity. Qed.

Lemma wf_abk_di : wf abk_di.
Proof. rewrite abk_di_eq. do 3 apply wf_bound. apply wf_initial. Qed.

Lemma wf_svc_di : wf svc_di.
Proof.
  assert (∃ s, wf s ∧ svc_di = snd (Di.resolve (AStr "x") [] false s))
    as (s & Hwf & ->).
  { eexists (bound "svc" (Fn 2 make_object) (Cls C_NoneScope)
               (bound "x" (Fn 3 make_object) (Cls C_SingletonScope)
                  (bound "db" (Fn 1 make_object) (Cls C_SingletonScope)
                     (initial 7 100)))).
    split; [do 3 apply wf_bound; apply wf_initial|reflexivity]. }
  rewrite resolve_single_state.
  destruct (Di._resolve_one (AStr "x") s) as [r s'] eqn:E.
  by destruct (resolve_one_frame _ _ _ _ Hwf E) as (H & _).
Qed.

(** Where ['svc'] resolves ['db']: both tables are as before and the
    singleton scope is the same instance. Where ['a'], ['b'] and ['K'] are
    bound to factories that resolve nothing: the first [resolve('a')] makes
    the singleton scope and stores the instance there, and keeps every entry
    of the scope registry. *)
Lemma C10_witness :
  (let s' := snd (Nested.resolve svc_uses 2 (AStr "svc") [] false svc_di) in
   _factories s' = _factories svc_di ∧ _depends_obj s' = _depends_obj svc_di ∧
   wf s' ∧ keeps_scopes svc_di s') ∧
  (let s' := snd (Di.resolve (AStr "a") [] false abk_di) in
   _factories s' = _factories abk_di ∧
   _depends_obj s' = _depends_obj abk_di ∧
   (∀ x v, _lookup abk_di !! x = Some v → _lookup s' !! x = Some v) ∧
   cached s' C_SingletonScope "a" = Some (Obj 102)).
Proof.
  destruct (C10_resolve_frame svc_uses 1 svc_di "svc" false)
    as (HF1 & HD1 & HW1 & _).
  destruct (HW1 wf_svc_di) as (HW & HK).
  destruct (C10_resolve_frame (fun _ => []) 0 abk_di "a" false)
    as (HF & HD & _ & H).
  destruct (H (fun _ _ _ _ => eq_refl)) as (Heq & Hw).
  destruct (Hw wf_abk_di) as (HL & _ & _).
  rewrite Heq in HF, HD, HL.
  split; cbv zeta.
  - split_and!; [exact HF1|exact HD1|exact HW|exact HK].
  - split_and!; [exact HF|exact HD|exact HL|vm_compute; reflexivity].
Defined.

(** ** C5: the None scope *)

Lemma cached_none_scope s k : wf s → cached s C_NoneScope k = None.
Proof.
  intros Hwf. unfold cached.
  destruct (instance_of s C_NoneScope) as [a|] eqn:E; [|done]. simpl.
  destruct (wf_class s Hwf _ _ (instance_of_Some _ _ _ E))
    as (a' & o & d & [= <-] & Ho & Hc & Hd).
  rewrite Ho. simpl. rewrite (wf_nonescope s Hwf a o Ho Hc). done.
Qed.

Lemma acquired_calls c s : calls (acquired c s) = calls s.
Proof. unfold acquired. by destruct (instance_of s c). Qed.

(** A miss calls the factory once, whatever the call does. *)
Lemma resolve_one_miss_calls s k f c r s' :
  wf s → _factories s !! k = Some (f, Cls c) → no_deps s k →
  instantiable c = true → cached s c k = None →
  Di._resolve_one (AStr k) s = (r, s') →
  calls s' = match f with Lambda _ => calls s | Fn g _ => g :: calls s end.
Proof.
  intros Hwf Hb Hnd Hc Hv. rewrite (resolve_one_miss _ _ _ _ Hwf Hb Hnd Hc Hv).
  destruct (Di.call f (acquired c s)) as [[v|e] s2] eqn:Ecall.
  - destruct (call_frame _ _ _ _ Ecall) as (_ & _ & _ & _ & _ & Hcalls).
    pose proof (wf_call _ _ _ _ (wf_acquired _ c Hwf) Ecall) as Hwf2.
    intros [= _ <-].
    destruct (Scope.__setitem__ (acquired_at c s) k v s2) as [r2 s3] eqn:Es.
    destruct (setitem_frame _ _ _ _ _ _ Hwf2 Es) as (_ & _ & _ & _ & Hc3 & _).
    simpl. rewrite Hc3, Hcalls, acquired_calls. done.
  - destruct (call_frame _ _ _ _ Ecall) as (_ & _ & _ & _ & _ & Hcalls).
    intros [= _ <-]. by rewrite Hcalls, acquired_calls.
Qed.

Lemma call_count_cons g s s' :
  calls s' = g :: calls s → call_count g s' = S (call_count g s).
Proof.
  unfold call_count. intros ->. by rewrite filter_cons_True.
Qed.

(** In the None scope every resolution is a miss that calls the factory. *)
Lemma none_scope_calls s K g body n :
  wf s →
  _factories s !! K = Some (Fn g body, Cls C_NoneScope) →
  no_deps s K →
  call_count g (resolve_n n K s) = n + call_count g s ∧
  cached (resolve_n n K s) C_NoneScope K = None.
Proof.
  revert s. induction n as [|n IH]; intros s Hwf Hb Hnd; simpl.
  - split; [done|]. by apply cached_none_scope.
  - rewrite resolve_single_state.
    destruct (Di._resolve_one (AStr K) s) as [r s'] eqn:E. simpl.
    pose proof (resolve_one_miss_calls _ _ _ _ _ _ Hwf Hb Hnd eq_refl
                  (cached_none_scope _ _ Hwf) E) as Hcalls.
    destruct (resolve_one_frame _ _ _ _ Hwf E) as (Hwf' & _).
    destruct (tables_resolve_one (_factories s) (_depends_obj s) (AStr K) s)
      as [HF HD]; [done|]. rewrite E in HF, HD. simpl in HF, HD.
    destruct (IH s' Hwf') as [IH1 IH2].
    + by rewrite HF.
    + unfold no_deps. by rewrite HD.
    + split; [|done]. rewrite IH1, (call_count_cons _ _ _ Hcalls). lia.
Qed.

(** A key bound to a scope instance: the scope registry hashes the
    instance and raises, before the factory is called. *)
Lemma resolve_one_bound_to_instance s k f a :
  _factories s !! k = Some (f, ScopeInst a) → no_deps s k →
  Di._resolve_one (AStr k) s = (Err TypeError, s).
Proof.
  intros Hb Hnd. unfold Di._resolve_one.
  step (Registry_get_eq _ _ _ Hb).
  step (missing_no_deps _ _ Hnd). done.
Qed.

Lemma resolve_n_fixed n k s :
  snd (Di.resolve (AStr k) [] false s) = s → resolve_n n k s = s.
Proof. intros H. induction n as [|n IH]; simpl; [done|]. by rewrite H. Qed.

(** C5. Let [K] have no declared dependency. Bound by
    [register(K, f, 'none')], or by [register(K, f, NoneScope)] while the
    registry holds no instance of the None scope yet, [K] is bound to the
    class: [n] consecutive calls [resolve(K)] then call [f] exactly [n]
    times, whether [f] returns or raises, and leave no instance cached for
    [K]. Bound by [register(K, f, NoneScope)] once the registry holds the
    instance of the None scope, [K] is bound to that instance: every
    [resolve(K)] raises [TypeError], the instance being unhashable, changes
    nothing and never calls [f]. *)
Theorem C5_none_scope_calls_factory_each_time s K g body n :
  wf s → no_deps s K →
  let f := Fn g body in
  let s1 := bound K f (Cls C_NoneScope) s in
  (Di.register K (Some f) (Str "none") s = (Ok (Di.Factory f), s1) ∧
   call_count g (resolve_n n K s1) = n + call_count g s ∧
   cached (resolve_n n K s1) C_NoneScope K = None) ∧
  (instance_of s C_NoneScope = None →
   Di.register K (Some f) (Cls C_NoneScope) s = (Ok (Di.Factory f), s1)) ∧
  (∀ a, instance_of s C_NoneScope = Some a →
     let s2 := bound K f (ScopeInst a) s in
     Di.register K (Some f) (Cls C_NoneScope) s = (Ok (Di.Factory f), s2) ∧
     Di.resolve (AStr K) [] false s2 = (Err TypeError, s2) ∧
     call_count g (resolve_n n K s2) = call_count g s).
Proof.
  intros Hwf Hnd f s1. split; [|split].
  - split; [by apply register_none|].
    apply (none_scope_calls s1 K g body n).
    + by apply wf_bound.
    + apply lookup_insert_eq.
    + done.
  - intros Hi. apply register_ok.
    apply resolve_class_absent; [by apply instance_of_None|done].
  - intros a Ha s2.
    assert (Di.resolve (AStr K) [] false s2 = (Err TypeError, s2)) as Hr.
    { rewrite resolve_single.
      rewrite (resolve_one_bound_to_instance s2 K f a); [done| |done].
      apply lookup_insert_eq. }
    split_and!; [|done|].
    + apply register_ok, resolve_class_present. by apply instance_of_Some.
    + rewrite resolve_n_fixed; [done|]. by rewrite Hr.
Qed.

Lemma wf_none_used_di : wf none_used_di.
Proof.
  unfold none_used_di.
  rewrite (bind_Ok _ _ _ _ _
             (register_none "j" (Fn 1 make_object) fresh_di (wf_initial 7 100))).
  rewrite resolve_single_state.
  destruct (Di._resolve_one (AStr "j")
              (bound "j" (Fn 1 make_object) (Cls C_NoneScope) fresh_di))
    as [r s'] eqn:E.
  destruct (resolve_one_frame _ _ _ _ (wf_bound _ _ _ _ (wf_initial 7 100)) E)
    as (H & _).
  exact H.
Qed.

(** On a new container, ['n'] registered under ['none']: three calls call
    the factory three times and return three new objects. On a container
    whose None scope was used before, ['k'] registered with the class
    [NoneScope]: three calls raise and the factory is not called. *)
Lemma C5_witness :
  (let s1 := bound "n" (Fn 5 make_object) (Cls C_NoneScope) fresh_di in
   Di.register "n" (Some (Fn 5 make_object)) (Str "none") fresh_di
   = (Ok (Di.Factory (Fn 5 make_object)), s1) ∧
   call_count 5 (resolve_n 3 "n" s1) = 3 ∧
   cached (resolve_n 3 "n" s1) C_NoneScope "n" = None ∧
   fst (Di.resolve (AStr "n") [AStr "n"; AStr "n"] false s1)
   = Ok (Di.Values [Obj 102; Obj 103; Obj 104])) ∧
  (let s2 := bound "k" (Fn 5 make_object) (ScopeInst 101) none_used_di in
   Di.register "k" (Some (Fn 5 make_object)) (Cls C_NoneScope) none_used_di
   = (Ok (Di.Factory (Fn 5 make_object)), s2) ∧
   Di.resolve (AStr "k") [] false s2 = (Err TypeError, s2) ∧
   call_count 5 (resolve_n 3 "k" s2) = 0).
Proof.
  destruct (C5_none_scope_calls_factory_each_time fresh_di "n" 5 make_object 3
              (wf_initial 7 100) (or_introl eq_refl)) as ((H1 & H2 & H3) & _).
  destruct (C5_none_scope_calls_factory_each_time none_used_di "k" 5
              make_object 3 wf_none_used_di (or_introl eq_refl))
    as (_ & _ & H4).
  assert (instance_of none_used_di C_NoneScope = Some 101) as Hi
    by (vm_compute; reflexivity).
  destruct (H4 101 Hi) as (H5 & H6 & H7).
  split; cbv zeta.
  - split_and!; [exact H1|exact H2|exact H3|vm_compute; reflexivity].
  - split_and!; [exact H5|exact H6|exact H7].
Defined.

(** ** The cache of a scope *)

Lemma cached_same s s2 c k :
  heap s2 = heap s → _lookup s2 = _lookup s → pid s2 = pid s →
  cached s2 c k = cached s c k.
Proof.
  intros Hh Hl Hp. unfold cached, instance_of.
  by rewrite Hh, Hl, (transformed_pid _ _ _ _ Hp).
Qed.

Lemma cached_acquired s c c' k' :
  wf s → cached (acquired c s) c' k' = cached s c' k'.
Proof.
  intros Hwf. unfold acquired.
  destruct (instance_of s c) as [a|] eqn:E; [done|].
  pose proof (instance_of_None _ _ Hwf E) as El.
  unfold cached, instance_of. simpl.
  destruct (decide (c' = c)) as [->|Hne].
  - rewrite lookup_insert_eq, El. simpl. by rewrite lookup_insert_eq.
  - rewrite lookup_insert_ne by congruence.
    destruct (_lookup s !! Cls c') as [[| |a'|]|] eqn:El'; try done. simpl.
    destruct (wf_class s Hwf _ _ El') as (a'' & o & d & [= <-] & Ho & _).
    rewrite lookup_insert_ne; [done|].
    intros <-. pose proof (wf_fresh s Hwf _ (mk_is_Some _ _ Ho)). lia.
Qed.

Lemma acquired_lookup s c :
  wf s → instantiable c = true →
  _lookup (acquired c s) !! Cls c = Some (ScopeInst (acquired_at c s)).
Proof.
  intros Hwf Hc. unfold acquired, acquired_at.
  destruct (instance_of s c) as [a|] eqn:E; simpl.
  - by apply instance_of_Some.
  - apply lookup_insert_eq.
Qed.

Lemma cached_after_setitem s a o d c k v :
  wf s → _lookup s !! Cls c = Some (ScopeInst a) →
  heap s !! a = Some o → so_class o = c → instances o = Some d →
  ∀ c' k',
    cached (set_heap (<[a := {| so_class := c;
                                instances := Some (<[transformed c s k := v]> d);
                                so_name := so_name o |}]> (heap s)) s) c' k'
    = if decide (c' = c ∧ k' = k) then Some v else cached s c' k'.
Proof.
  intros Hwf El Ho <- Hd c' k'. unfold cached, instance_of. simpl.
  destruct (decide (c' = so_class o)) as [->|Hne].
  - rewrite El. simpl. rewrite lookup_insert_eq, Ho. simpl. rewrite Hd. simpl.
    assert (∀ x, transformed (so_class o) (set_heap x s) k'
                 = transformed (so_class o) s k') as ->
      by (intros x; by apply transformed_pid).
    destruct (decide (k' = k)) as [->|Hk].
    + rewrite decide_True by done. apply lookup_insert_eq.
    + rewrite decide_False by (by intros [_ ?]).
      rewrite lookup_insert_ne; [done|]. by intros ?%transformed_inj.
  - rewrite decide_False by (by intros [? _]).
    destruct (_lookup s !! Cls c') as [[| |a'|]|] eqn:El'; try done. simpl.
    destruct (wf_class s Hwf _ _ El') as (a'' & o' & d' & [= <-] & Ho' & Hc' & _).
    rewrite lookup_insert_ne; [|intros <-; congruence].
    rewrite Ho'. simpl.
    destruct (instances o'); simpl; [|done].
    by rewrite (transformed_pid c' s (set_heap _ s) k').
Qed.

Lemma returns_call f s :
  returns f → ∃ v s2, Di.call f s = (Ok v, s2).
Proof.
  destruct f as [obj|g body]; simpl; [eauto|].
  intros H. destruct (H (next s)) as [v Hv].
  unfold bind, alloc, modify, lift. simpl. rewrite Hv. eauto.
Qed.

(** A miss whose factory returns [v]: [v] is returned and, unless the scope
    is a [NoneScope], cached; what was cached stays cached. *)
Lemma resolve_one_miss_ok s k f c v s2 :
  wf s → _factories s !! k = Some (f, Cls c) → no_deps s k →
  instantiable c = true → cached s c k = None →
  Di.call f (acquired c s) = (Ok v, s2) →
  ∃ s', Di._resolve_one (AStr k) s = (Ok v, s') ∧
        (c ≠ C_NoneScope → cached s' c k = Some v) ∧
        (∀ c' k' v', cached s c' k' = Some v' → cached s' c' k' = Some v').
Proof.
  intros Hwf Hb Hnd Hc Hv Ecall.
  rewrite (resolve_one_miss _ _ _ _ Hwf Hb Hnd Hc Hv), Ecall.
  eexists. split; [done|].
  destruct (acquired_store s c Hwf Hc) as (o & d & Ho & Hcl & Hd & Hk).
  destruct (call_frame _ _ _ _ Ecall) as (Hh2 & Hl2 & Hp2 & _).
  pose proof (wf_call _ _ _ _ (wf_acquired _ c Hwf) Ecall) as Hwf2.
  rewrite <- Hh2 in Ho.
  assert (∀ c' k', cached s2 c' k' = cached s c' k') as Hsame.
  { intros c' k'. rewrite (cached_same _ _ _ _ Hh2 Hl2 Hp2).
    by apply cached_acquired. }
  rewrite (setitem_eq _ _ _ _ Ho Hd). simpl.
  destruct (decide (so_class o = C_NoneScope)) as [Hn|Hn].
  - split; [congruence|]. intros c' k' v'. by rewrite Hsame.
  - pose proof (acquired_lookup s c Hwf Hc) as El. rewrite <- Hl2 in El.
    rewrite Hcl.
    pose proof (cached_after_setitem s2 _ o d c k v Hwf2 El Ho Hcl Hd) as Hc'.
    split.
    + intros _. rewrite Hc'. by rewrite decide_True.
    + intros c' k' v' Hv'. rewrite Hc'.
      destruct (decide (c' = c ∧ k' = k)) as [[-> ->]|]; [congruence|].
      by rewrite Hsame.
Qed.

Lemma cached_bound key f sc s c k : cached (bound key f sc s) c k = cached s c k.
Proof. done. Qed.

Lemma no_deps_bound key f sc s k : no_deps (bound key f sc s) k ↔ no_deps s k.
Proof. done. Qed.

(** The state a successful resolution leaves still has the binding and the
    absence of declared dependencies. *)
Lemma resolve_one_keeps s key r s' k b :
  Di._resolve_one key s = (r, s') →
  (_factories s !! k = Some b → _factories s' !! k = Some b) ∧
  (no_deps s k → no_deps s' k).
Proof.
  intros E.
  destruct (tables_resolve_one (_factories s) (_depends_obj s) key s)
    as [HF HD]; [done|]. rewrite E in HF, HD. simpl in HF, HD.
  unfold no_deps. by rewrite HF, HD.
Qed.

(** ** C3: the singleton scope *)

(** C3, counterexample. ['k'] is bound via [register('k', f, 'singleton')]
    and has no declared dependency, yet two consecutive [resolve('k')] do
    not call [f] at all: the singleton scope holds the instance made by the
    factory ['k'] was bound to before, and both calls return it. *)
Lemma C3_rebound_key_factory_not_called :
  _factories stale_k_di !! "k" = Some (Fn 2 make_object, Cls C_SingletonScope) ∧
  _depends_obj stale_k_di !! Str "k" = None ∧
  fst (Di.resolve (AStr "k") [] false stale_k_di) = Ok (Di.Value (Obj 102)) ∧
  fst (Di.resolve (AStr "k") [] false (resolve_n 1 "k" stale_k_di))
  = Ok (Di.Value (Obj 102)) ∧
  call_count 2 stale_k_di = 0 ∧
  call_count 2 (resolve_n 2 "k" stale_k_di) = 0.
Proof. split_and!; vm_compute; reflexivity. Qed.

(** C3, amended. Let [K] have no declared dependency and be bound by
    [register(K, f, 'singleton')]. When the singleton scope holds no
    instance for [K] and [f] never raises, two consecutive [resolve(K)]
    return the same instance and call [f] exactly once. When the singleton
    scope already holds an instance for [K], both return that instance and
    [f] is not called. *)
Theorem C3_singleton_factory_called_once s K g body :
  wf s → no_deps s K →
  let f := Fn g body in
  let s1 := bound K f (Cls C_SingletonScope) s in
  Di.register K (Some f) (Str "singleton") s = (Ok (Di.Factory f), s1) ∧
  (cached s C_SingletonScope K = None → returns f →
   ∃ v s2,
     Di.resolve (AStr K) [] false s1 = (Ok (Di.Value v), s2) ∧
     Di.resolve (AStr K) [] false s2 = (Ok (Di.Value v), s2) ∧
     call_count g s2 = S (call_count g s)) ∧
  (∀ v, cached s C_SingletonScope K = Some v →
     Di.resolve (AStr K) [] false s1 = (Ok (Di.Value v), s1) ∧
     call_count g s1 = call_count g s).
Proof.
  intros Hwf Hnd f s1.
  assert (wf s1) as Hwf1 by by apply wf_bound.
  assert (_factories s1 !! K = Some (f, Cls C_SingletonScope)) as Hb
    by apply lookup_insert_eq.
  split_and!.
  - by apply register_singleton.
  - intros Hc Hret.
    destruct (returns_call f (acquired C_SingletonScope s1) Hret)
      as (v & s2' & Ecall).
    destruct (resolve_one_miss_ok s1 K f C_SingletonScope v s2' Hwf1 Hb Hnd
                eq_refl Hc Ecall) as (s2 & E & Hcached & _).
    exists v, s2.
    destruct (resolve_one_frame _ _ _ _ Hwf1 E) as (Hwf2 & _).
    destruct (resolve_one_keeps _ _ _ _ K (f, Cls C_SingletonScope) E)
      as [Hb2 Hnd2].
    split_and!.
    + by rewrite resolve_single, E.
    + rewrite resolve_single.
      by rewrite (resolve_one_hit s2 K f C_SingletonScope v Hwf2 (Hb2 Hb)
                    (Hnd2 Hnd) eq_refl (Hcached ltac:(done))).
    + apply call_count_cons.
      apply (resolve_one_miss_calls s1 K f C_SingletonScope _ _ Hwf1 Hb Hnd
               eq_refl Hc E).
  - intros v Hc. split; [|done].
    rewrite resolve_single.
    by rewrite (resolve_one_hit s1 K f C_SingletonScope v Hwf1 Hb Hnd eq_refl Hc).
Qed.

(** On a new container: the first [resolve('k')] builds the object at 102,
    the second returns it, and the factory was called once. *)
Lemma C3_witness :
  let s1 := bound "k" (Fn 9 make_object) (Cls C_SingletonScope) fresh_di in
  Di.register "k" (Some (Fn 9 make_object)) (Str "singleton") fresh_di
  = (Ok (Di.Factory (Fn 9 make_object)), s1) ∧
  ∃ v s2,
    Di.resolve (AStr "k") [] false s1 = (Ok (Di.Value v), s2) ∧
    Di.resolve (AStr "k") [] false s2 = (Ok (Di.Value v), s2) ∧
    call_count 9 s2 = 1.
Proof.
  destruct (C3_singleton_factory_called_once fresh_di "k" 9 make_object
              (wf_initial 7 100) (or_introl eq_refl)) as (H1 & H2 & _).
  split; [exact H1|].
  apply H2; [reflexivity|]. intros a. by exists (Obj a).
Defined.

(** ** C7: [register_instance] *)

(** C7, counterexample. After [register_instance('x', obj)] with [obj] the
    object at 5, [resolve('x')] returns the object at 102 that the singleton
    scope kept from the binding ['x'] had before; and where ['x'] has a
    declared dependency, [resolve('x')] raises [UnresolvableError]. *)
Lemma C7_resolve_after_register_instance_not_obj :
  _factories stale_x_di !! "x" = Some (Lambda (Obj 5), Cls C_SingletonScope) ∧
  fst (Di.resolve (AStr "x") [] false stale_x_di) = Ok (Di.Value (Obj 102)) ∧
  _factories needy_x_di !! "x" = Some (Lambda (Obj 5), Cls C_SingletonScope) ∧
  fst (Di.resolve (AStr "x") [] false needy_x_di)
  = Err (UnresolvableError (AStr "x") (MIter (IFilterFalse ["a"]))).
Proof. split_and!; vm_compute; reflexivity. Qed.

(** C7, amended. [register_instance(K, obj)] binds [K] in the singleton
    scope to a factory returning [obj]; when [K] has no declared dependency
    and the singleton scope holds no instance for [K], a subsequent
    [resolve(K)] returns [obj] itself. *)
Theorem C7_register_instance_resolves_to_obj s K obj :
  wf s →
  let s1 := bound K (Lambda obj) (Cls C_SingletonScope) s in
  Di.register_instance K obj s = (Ok tt, s1) ∧
  _factories s1 !! K = Some (Lambda obj, Cls C_SingletonScope) ∧
  (no_deps s K → cached s C_SingletonScope K = None →
   ∃ s2, Di.resolve (AStr K) [] false s1 = (Ok (Di.Value obj), s2) ∧
         cached s2 C_SingletonScope K = Some obj).
Proof.
  intros Hwf s1.
  assert (wf s1) as Hwf1 by by apply wf_bound.
  assert (_factories s1 !! K = Some (Lambda obj, Cls C_SingletonScope)) as Hb
    by apply lookup_insert_eq.
  split_and!; [by apply register_instance_eq|done|].
  intros Hnd Hc.
  destruct (resolve_one_miss_ok s1 K (Lambda obj) C_SingletonScope obj
              (acquired C_SingletonScope s1) Hwf1 Hb Hnd eq_refl Hc eq_refl)
    as (s2 & E & Hcached & _).
  exists s2. split; [|by apply Hcached].
  by rewrite resolve_single, E.
Qed.

(** On a new container, with the object at 5. *)
Lemma C7_witness :
  let s1 := bound "x" (Lambda (Obj 5)) (Cls C_SingletonScope) fresh_di in
  Di.register_instance "x" (Obj 5) fresh_di = (Ok tt, s1) ∧
  ∃ s2, Di.resolve (AStr "x") [] false s1 = (Ok (Di.Value (Obj 5)), s2) ∧
        cached s2 C_SingletonScope "x" = Some (Obj 5).
Proof.
  destruct (C7_register_instance_resolves_to_obj fresh_di "x" (Obj 5)
              (wf_initial 7 100)) as (H1 & _ & H2).
  split; [exact H1|]. apply H2; [by left|reflexivity].
Defined.

(** ** C2: several keys *)

Lemma resolve_one_resolvable s k :
  wf s → resolvable s k →
  ∃ v s', Di._resolve_one (AStr k) s = (Ok v, s') ∧ wf s' ∧
    (∀ k' b, _factories s !! k' = Some b → _factories s' !! k' = Some b) ∧
    (∀ k', resolvable s k' → resolvable s' k') ∧
    (∀ c' k' v', cached s c' k' = Some v' → cached s' c' k' = Some v') ∧
    (∀ f, _factories s !! k = Some (f, Cls C_SingletonScope) →
          cached s' C_SingletonScope k = Some v).
Proof.
  intros Hwf (f & c & Hb & Hc & Hnd & Hret).
  assert (∃ v s', Di._resolve_one (AStr k) s = (Ok v, s') ∧
            (c ≠ C_NoneScope → cached s' c k = Some v) ∧
            (∀ c' k' v', cached s c' k' = Some v' → cached s' c' k' = Some v'))
    as (v & s' & E & Hcached & Hpers).
  { destruct (cached s c k) as [v|] eqn:Hv.
    - exists v, s. rewrite (resolve_one_hit _ _ _ _ _ Hwf Hb Hnd Hc Hv). eauto.
    - destruct (returns_call f (acquired c s) Hret) as (v & s2 & Ecall).
      destruct (resolve_one_miss_ok _ _ _ _ _ _ Hwf Hb Hnd Hc Hv Ecall)
        as (s' & ? & ? & ?). eauto. }
  exists v, s'.
  destruct (resolve_one_frame _ _ _ _ Hwf E) as (Hwf' & _).
  split_and!; try done.
  - intros k' b. by apply (resolve_one_keeps _ _ _ _ k' b E).
  - intros k' (f' & c' & Hb' & Hc' & Hnd' & Hret').
    exists f', c'. split_and!; try done.
    + by apply (resolve_one_keeps _ _ _ _ k' (f', Cls c') E).
    + by apply (resolve_one_keeps _ _ _ _ k' (f', Cls c') E).
  - intros f' Hb'. rewrite Hb in Hb'. injection Hb' as _ ->. by apply Hcached.
Qed.

Lemma mapM_resolve_one keys :
  ∀ s, wf s → Forall (resolvable s) keys →
  ∃ l s', mapM Di._resolve_one (AStr <$> keys) s = (Ok l, s') ∧
    length l = length keys ∧
    (∀ c' k' v', cached s c' k' = Some v' → cached s' c' k' = Some v') ∧
    (∀ i k f, keys !! i = Some k →
       _factories s !! k = Some (f, Cls C_SingletonScope) →
       ∃ v, l !! i = Some v ∧ cached s' C_SingletonScope k = Some v).
Proof.
  induction keys as [|k keys IH]; intros s Hwf Hall.
  - exists [], s. split_and!; try done.
  - apply Forall_cons in Hall as [Hk Hall].
    destruct (resolve_one_resolvable s k Hwf Hk)
      as (v & s1 & E & Hwf1 & Hbind & Hres & Hpers & Hsing).
    destruct (IH s1 Hwf1) as (l & s' & El & Hlen & Hpers' & Hdup).
    { eapply Forall_impl; [exact Hall|]. eauto. }
    exists (v :: l), s'. split_and!.
    + cbn [fmap list_fmap mapM]. rewrite (bind_Ok _ _ _ _ _ E).
      change (list_fmap _ _ AStr keys) with (AStr <$> keys).
      by rewrite (bind_Ok _ _ _ _ _ El).
    + simpl. by rewrite Hlen.
    + eauto.
    + intros [|i] k' f Hi Hb'; simpl in Hi.
      * injection Hi as <-. exists v. split; [done|]. eauto.
      * apply (Hdup i k' f Hi). by apply Hbind.
Qed.

(** Positional keys, each resolvable: [resolve] returns the results of
    resolving the keys one after the other, one per key, and a key bound in
    the singleton scope has the same instance at each of its positions. *)
Lemma positional_keys_sequence s k more :
  wf s → more ≠ [] → Forall (resolvable s) (k :: more) →
  ∃ l s',
    Di.resolve (AStr k) (AStr <$> more) false s = (Ok (Di.Values l), s') ∧
    mapM Di._resolve_one (AStr <$> (k :: more)) s = (Ok l, s') ∧
    length l = length (k :: more) ∧
    (∀ i j k' f, (k :: more) !! i = Some k' → (k :: more) !! j = Some k' →
       _factories s !! k' = Some (f, Cls C_SingletonScope) →
       is_Some (l !! i) ∧ l !! i = l !! j).
Proof.
  intros Hwf Hmore Hall.
  destruct (mapM_resolve_one (k :: more) s Hwf Hall)
    as (l & s' & El & Hlen & _ & Hdup).
  exists l, s'. split_and!; try done.
  - unfold Di.resolve, Di._coerce_key_or_keys.
    destruct more as [|k2 more]; [done|]. cbn [fmap list_fmap app].
    cbn [fmap list_fmap] in El. by rewrite (bind_Ok _ _ _ _ _ El).
  - intros i j k' f Hi Hj Hb.
    destruct (Hdup i k' f Hi Hb) as (v & Hv & Hc).
    destruct (Hdup j k' f Hj Hb) as (v' & Hv' & Hc').
    split; [by eexists|]. congruence.
Qed.

Lemma get_deps_declared s obj deps :
  hashable obj = true → _depends_obj s !! obj = Some deps →
  Di.get_deps obj s = (Ok (Some deps), s).
Proof.
  intros Hh Hd. unfold Di.get_deps, DependencyRegistry.get, bind, get_state, lift.
  by rewrite (dict_contains_Some _ obj _ Hh Hd), Hd.
Qed.

(** C2. Several keys given as one list. Whenever the keys [k :: more]
    (two or more) resolve one after the other to the results [l], the
    request with the keys as positional arguments returns the sequence [l],
    one result per key in the order asked. The request with the same keys
    as one list resolves them all in the same way and leaves the same
    state, but returns the first result alone ([ret[0]]), or the first key
    with its result under [with_keys]; so does [resolve_deps] for an object
    whose declared dependencies are these keys. *)
Theorem C2_list_request_returns_first_result_only s k more l s' :
  more ≠ [] →
  mapM Di._resolve_one (AStr <$> (k :: more)) s = (Ok l, s') →
  length l = length (k :: more) ∧
  Di.resolve (AStr k) (AStr <$> more) false s = (Ok (Di.Values l), s') ∧
  ∃ v, l !! 0 = Some v ∧
    Di.resolve (AList (k :: more)) [] false s = (Ok (Di.Value v), s') ∧
    Di.resolve (AList (k :: more)) [] true s
    = (Ok (Di.KeyValue (AStr k, v)), s') ∧
    (∀ obj deps, hashable obj = true → _depends_obj s !! obj = Some deps →
       elements deps = k :: more →
       Di.resolve_deps obj false s = (Ok (Di.Value v), s')).
Proof.
  intros Hmore El. pose proof (mapM_length _ _ _ _ _ El) as Hlen.
  rewrite length_fmap in Hlen.
  assert (Di.resolve (AList (k :: more)) [] false s
          = (Ok (Di.Value (default (Str "") (l !! 0))), s')
          ∧ Di.resolve (AList (k :: more)) [] true s
          = (Ok (Di.KeyValue (AStr k, default (Str "") (l !! 0))), s')
          ∧ is_Some (l !! 0)) as (Hlist & Hkeys & [v Hv]).
  { unfold Di.resolve, Di._coerce_key_or_keys. cbn [app].
    rewrite !(bind_Ok _ _ _ _ _ El).
    destruct l as [|v l]; [done|]. split_and!; [done|done|by eexists]. }
  rewrite Hv in Hlist, Hkeys. simpl in Hlist, Hkeys.
  split_and!; [done| |].
  - unfold Di.resolve, Di._coerce_key_or_keys.
    destruct more as [|k2 more]; [done|]. cbn [fmap list_fmap app].
    cbn [fmap list_fmap] in El. by rewrite (bind_Ok _ _ _ _ _ El).
  - exists v. split_and!; try done.
    intros obj deps Hh Hd Hel. unfold Di.resolve_deps.
    rewrite (bind_Ok _ _ _ _ _ (get_deps_declared _ _ _ Hh Hd)).
    by rewrite Hel.
Qed.

Lemma resolvable_abk_di k :
  k ∈ ["a"; "b"; "K"] → resolvable abk_di k.
Proof.
  intros Hk.
  assert (∀ g, returns (Fn g make_object)) as Hret
    by (intros g a; by exists (Obj a)).
  rewrite !elem_of_cons, elem_of_nil in Hk.
  destruct Hk as [->|[->|[->|[]]]];
    eexists (Fn _ make_object), C_SingletonScope;
    (split_and!; [reflexivity|reflexivity|by left|apply Hret]).
Qed.

(** ['a'] and ['b'] are bound in the singleton scope:
    [resolve('a', 'b', 'a')] returns three values, the first and the third
    the same instance, and [resolve(['a', 'b', 'a'])] returns the first of
    them alone, having resolved all three. *)
Lemma C2_witness :
  let s' := snd (mapM Di._resolve_one (AStr <$> ["a"; "b"; "a"]) abk_di) in
  Di.resolve (AStr "a") [AStr "b"; AStr "a"] false abk_di
  = (Ok (Di.Values [Obj 102; Obj 103; Obj 102]), s') ∧
  Di.resolve (AList ["a"; "b"; "a"]) [] false abk_di
  = (Ok (Di.Value (Obj 102)), s') ∧
  cached s' C_SingletonScope "b" = Some (Obj 103).
Proof.
  cbv zeta.
  assert (fst (mapM Di._resolve_one (AStr <$> ["a"; "b"; "a"]) abk_di)
          = Ok [Obj 102; Obj 103; Obj 102]) as Hl by (vm_compute; reflexivity).
  assert (cached (snd (mapM Di._resolve_one (AStr <$> ["a"; "b"; "a"]) abk_di))
            C_SingletonScope "b" = Some (Obj 103)) as Hc
    by (vm_compute; reflexivity).
  destruct (mapM Di._resolve_one (AStr <$> ["a"; "b"; "a"]) abk_di)
    as [r s'] eqn:E.
  simpl in Hl. subst r.
  destruct (C2_list_request_returns_first_result_only abk_di "a" ["b"; "a"]
              [Obj 102; Obj 103; Obj 102] s')
    as (_ & Hpos & v & Hv & Hlist & _).
  - discriminate.
  - exact E.
  - injection Hv as <-. split_and!; [exact Hpos|exact Hlist|exact Hc].
Defined.

(** * Further properties of the code *)

(** ** The mapping operations of a scope *)

Section scope_store.
Context (s : state) (a : addr) (o : scope_obj) (d : gmap string pyobj).
Hypothesis Ho : heap s !! a = Some o.
Hypothesis Hd : instances o = Some d.

Lemma get_instances_eq : Scope.get_instances a s = (Ok d, s).
Proof using Ho Hd.
  unfold Scope.get_instances.
  rewrite (bind_Ok _ _ _ _ _ (load_eq _ _ _ Ho)). by rewrite Hd.
Qed.

Lemma delitem_eq k :
  Scope.__delitem__ a k s
  = match d !! transformed (so_class o) s k with
    | None => (Err KeyError, s)
    | Some _ =>
        (Ok tt,
         set_heap (<[a := {| so_class := so_class o;
                             instances := Some (delete (transformed (so_class o) s k) d);
                             so_name := so_name o |}]> (heap s)) s)
    end.
Proof using Ho Hd.
  unfold Scope.__delitem__.
  rewrite (bind_Ok _ _ _ _ _ (key_transform_eq s a o Ho k)).
  rewrite (bind_Ok _ _ _ _ _ get_instances_eq).
  destruct (d !! _); [|done].
  by rewrite (bind_Ok _ _ _ _ _ (load_eq _ _ _ Ho)).
Qed.

Lemma iter_eq : Scope.__iter__ a s = (Ok (fst <$> map_to_list d), s).
Proof using Ho Hd.
  unfold Scope.__iter__. by rewrite (bind_Ok _ _ _ _ _ get_instances_eq).
Qed.

Lemma len_eq : Scope.__len__ a s = (Ok (size d), s).
Proof using Ho Hd.
  unfold Scope.__len__. by rewrite (bind_Ok _ _ _ _ _ get_instances_eq).
Qed.
End scope_store.

(** X1. Writing then reading. In an initialised scope instance of any class
    but [NoneScope], [self[k] = v] succeeds; afterwards [self[k]] is [v]
    and [k in self] is true, every other key reads as before, and no other
    scope instance has changed. *)
Theorem scope_setitem_then_getitem s a o d k v :
  heap s !! a = Some o → instances o = Some d → so_class o ≠ C_NoneScope →
  let s1 := snd (Scope.__setitem__ a k v s) in
  Scope.__setitem__ a k v s = (Ok tt, s1) ∧
  Scope.__getitem__ a k s1 = (Ok v, s1) ∧
  Scope.__contains__ a k s1 = (Ok true, s1) ∧
  (∀ k', k' ≠ k →
     Scope.__getitem__ a k' s1 = (fst (Scope.__getitem__ a k' s), s1)) ∧
  (∀ a', a' ≠ a → heap s1 !! a' = heap s !! a').
Proof.
  intros Ho Hd Hc. rewrite (setitem_eq s a o d Ho Hd).
  rewrite decide_False by done. cbn [snd].
  set (o1 := {| so_class := so_class o;
                instances := Some (<[transformed (so_class o) s k := v]> d);
                so_name := so_name o |}).
  set (s1 := set_heap (<[a := o1]> (heap s)) s).
  assert (heap s1 !! a = Some o1) as Ho1 by apply lookup_insert_eq.
  assert (instances o1 = Some (<[transformed (so_class o) s k := v]> d))
    as Hd1 by done.
  assert (∀ k', transformed (so_class o1) s1 k' = transformed (so_class o) s k')
    as Htr by done.
  split_and!; try done.
  - rewrite (getitem_eq s1 a o1 _ Ho1 Hd1), Htr. by rewrite lookup_insert_eq.
  - rewrite (contains_eq s1 a o1 _ Ho1 Hd1), Htr. by rewrite lookup_insert_eq.
  - intros k' Hk'. rewrite (getitem_eq s1 a o1 _ Ho1 Hd1), Htr.
    rewrite (getitem_eq s a o d Ho Hd).
    rewrite lookup_insert_ne; [done|]. by intros ?%transformed_inj.
  - intros a' Ha'. subst s1. simpl. by rewrite lookup_insert_ne.
Qed.

(** A [Scope] made by [scope()] on a new container. *)
Lemma scope_setitem_then_getitem_witness :
  let s := snd (Di.scope fresh_di) in
  let s1 := snd (Scope.__setitem__ 101 "db" (Obj 3) s) in
  Scope.__setitem__ 101 "db" (Obj 3) s = (Ok tt, s1) ∧
  Scope.__getitem__ 101 "db" s1 = (Ok (Obj 3), s1) ∧
  Scope.__contains__ 101 "db" s1 = (Ok true, s1).
Proof.
  cbv zeta.
  destruct (scope_setitem_then_getitem (snd (Di.scope fresh_di)) 101
              {| so_class := C_Scope; instances := Some ∅; so_name := None |}
              ∅ "db" (Obj 3)) as (H1 & H2 & H3 & _);
    [reflexivity|reflexivity|discriminate|].
  split_and!; [exact H1|exact H2|exact H3].
Defined.

(** X2. Deleting. [del self[k]] raises [KeyError] and changes nothing when
    [k] is not stored. When it is, the key is gone afterwards ([k in self]
    is false), [len(self)] has dropped by one and every other key reads as
    before. *)
Theorem scope_delitem s a o d k :
  heap s !! a = Some o → instances o = Some d →
  let s1 := snd (Scope.__delitem__ a k s) in
  (Scope.__contains__ a k s = (Ok false, s) →
   Scope.__delitem__ a k s = (Err KeyError, s)) ∧
  (Scope.__contains__ a k s = (Ok true, s) →
   Scope.__delitem__ a k s = (Ok tt, s1) ∧
   Scope.__contains__ a k s1 = (Ok false, s1) ∧
   (∃ n, Scope.__len__ a s = (Ok (S n), s) ∧ Scope.__len__ a s1 = (Ok n, s1)) ∧
   (∀ k', k' ≠ k →
      Scope.__getitem__ a k' s1 = (fst (Scope.__getitem__ a k' s), s1))).
Proof.
  intros Ho Hd. cbv zeta.
  rewrite (contains_eq s a o d Ho Hd), (delitem_eq s a o d Ho Hd).
  destruct (d !! transformed (so_class o) s k) as [v|] eqn:Hk.
  2: { split; [done|]. intros [= H]. }
  split; [intros [= H]|]. intros _. cbn [snd].
  set (tk := transformed (so_class o) s k) in *.
  set (o1 := {| so_class := so_class o; instances := Some (delete tk d);
                so_name := so_name o |}).
  set (s1 := set_heap (<[a := o1]> (heap s)) s).
  assert (heap s1 !! a = Some o1) as Ho1 by apply lookup_insert_eq.
  assert (instances o1 = Some (delete tk d)) as Hd1 by done.
  assert (∀ k', transformed (so_class o1) s1 k' = transformed (so_class o) s k')
    as Htr by done.
  split_and!; try done.
  - rewrite (contains_eq s1 a o1 _ Ho1 Hd1), Htr. fold tk.
    by rewrite lookup_delete_eq.
  - exists (size (delete tk d)).
    rewrite (len_eq s a o d Ho Hd), (len_eq s1 a o1 _ Ho1 Hd1).
    split; [|done]. do 2 f_equal.
    rewrite <- (insert_delete_id d tk v Hk) at 1.
    rewrite map_size_insert_None; [done|]. apply lookup_delete_eq.
  - intros k' Hk'. rewrite (getitem_eq s1 a o1 _ Ho1 Hd1), Htr.
    rewrite (getitem_eq s a o d Ho Hd).
    rewrite lookup_delete_ne; [done|]. by intros ?%transformed_inj.
Qed.

(** A [Scope] holding one instance, then emptied. *)
Lemma scope_delitem_witness :
  let s := snd ((Di.scope ;;; Scope.__setitem__ 101 "db" (Obj 3)) fresh_di) in
  let s1 := snd (Scope.__delitem__ 101 "db" s) in
  Scope.__delitem__ 101 "db" s = (Ok tt, s1) ∧
  Scope.__contains__ 101 "db" s1 = (Ok false, s1) ∧
  Scope.__delitem__ 101 "db" s1 = (Err KeyError, s1).
Proof.
  cbv zeta.
  set (s := snd ((Di.scope ;;; Scope.__setitem__ 101 "db" (Obj 3)) fresh_di)).
  destruct (scope_delitem s 101
              {| so_class := C_Scope; instances := Some {["db" := Obj 3]};
                 so_name := None |} {["db" := Obj 3]} "db")
    as (_ & H); [reflexivity|reflexivity|].
  destruct H as (H1 & H2 & _); [reflexivity|].
  split_and!; [exact H1|exact H2|].
  set (s1 := snd (Scope.__delitem__ 101 "db" s)).
  destruct (scope_delitem s1 101
              {| so_class := C_Scope; instances := Some ∅; so_name := None |}
              ∅ "db") as (H & _); [reflexivity|reflexivity|].
  apply H. reflexivity.
Defined.

(** X3. Iterating and counting. [iter(self)] yields every stored key once,
    [len(self)] is the number of keys it yields, and in every class but
    [ProcessScope] a key is yielded exactly when [key in self] is true. In
    a [ProcessScope] the keys yielded are the stored ones, prefixed with the
    process id. *)
Theorem scope_iter_len s a o d :
  heap s !! a = Some o → instances o = Some d →
  ∃ l, Scope.__iter__ a s = (Ok l, s) ∧
       Scope.__len__ a s = (Ok (length l), s) ∧
       NoDup l ∧
       (∀ k, Scope.__contains__ a k s = (Ok true, s)
             ↔ transformed (so_class o) s k ∈ l) ∧
       (so_class o ≠ C_ProcessScope →
        ∀ k, k ∈ l ↔ Scope.__contains__ a k s = (Ok true, s)).
Proof.
  intros Ho Hd. exists (fst <$> map_to_list d).
  assert (∀ k, k ∈ fst <$> map_to_list d ↔ is_Some (d !! k)) as Hin.
  { intros k. rewrite list_elem_of_fmap. split.
    - intros ([k' v] & -> & Hkv). apply elem_of_map_to_list in Hkv. by eexists.
    - intros [v Hv]. exists (k, v). split; [done|].
      by apply elem_of_map_to_list. }
  assert (∀ k, Scope.__contains__ a k s = (Ok true, s)
               ↔ transformed (so_class o) s k ∈ fst <$> map_to_list d) as Hc.
  { intros k. rewrite (contains_eq s a o d Ho Hd), Hin.
    destruct (d !! transformed (so_class o) s k) as [v|]; simpl.
    - split; [by eexists|done].
    - split; [intros [= H]|by intros [? ?]]. }
  split_and!.
  - apply (iter_eq s a o d Ho Hd).
  - rewrite (len_eq s a o d Ho Hd). do 2 f_equal.
    by rewrite length_fmap, length_map_to_list.
  - apply NoDup_fst_map_to_list.
  - done.
  - intros Hne k. rewrite Hc. by destruct (so_class o).
Qed.

(** A [Scope] holding ['db'] and ['log']: two keys, both members. *)
Lemma scope_iter_len_witness :
  let s := snd ((Di.scope ;;; Scope.__setitem__ 101 "db" (Obj 3) ;;;
                 Scope.__setitem__ 101 "log" (Obj 4)) fresh_di) in
  ∃ l, Scope.__iter__ 101 s = (Ok l, s) ∧
       Scope.__len__ 101 s = (Ok 2, s) ∧
       "db" ∈ l ∧ "log" ∈ l.
Proof.
  cbv zeta.
  set (s := snd ((Di.scope ;;; Scope.__setitem__ 101 "db" (Obj 3) ;;;
                  Scope.__setitem__ 101 "log" (Obj 4)) fresh_di)).
  destruct (scope_iter_len s 101
              {| so_class := C_Scope;
                 instances := Some (<["log" := Obj 4]> {["db" := Obj 3]});
                 so_name := None |} (<["log" := Obj 4]> {["db" := Obj 3]}))
    as (l & Hi & Hl & _ & _ & Hin); [reflexivity|reflexivity|].
  exists l.
  assert (length l = 2) as Hlen.
  { assert (Scope.__len__ 101 s = (Ok 2, s)) as H2 by reflexivity.
    rewrite Hl in H2. by injection H2. }
  split_and!; [exact Hi|rewrite Hl, Hlen; reflexivity|..];
    (apply Hin; [discriminate|vm_compute; reflexivity]).
Defined.

(** ** The process scope *)

Lemma string_length_app (s t : string) :
  String.length (s ++ t) = String.length s + String.length t.
Proof. induction s as [|c s IH]; simpl; [done|]. by rewrite IH. Qed.

Lemma string_app_inv_tail (s1 s2 t : string) :
  (s1 ++ t = s2 ++ t)%string → s1 = s2.
Proof.
  intros H.
  assert (String.length s1 = String.length s2) as Hlen.
  { apply (f_equal String.length) in H. rewrite !string_length_app in H. lia. }
  revert s2 H Hlen. induction s1 as [|c s1 IH]; intros [|c2 s2] H Hlen;
    simpl in *; try done.
  injection H as -> H. f_equal. apply IH; [done|lia].
Qed.

Lemma to_uint_not_Nil n : Nat.to_uint n ≠ Decimal.Nil.
Proof.
  intros H. assert (n = 0) as ->.
  { rewrite <- (DecimalNat.Unsigned.of_to n), H. reflexivity. }
  discriminate H.
Qed.

Lemma str_of_int_inj p p' : str_of_int p = str_of_int p' → p = p'.
Proof.
  unfold str_of_int. intros H.
  apply (f_equal NilZero.uint_of_string) in H.
  rewrite !NilZero.usu in H by apply to_uint_not_Nil.
  injection H as H. by apply DecimalNat.Unsigned.to_uint_inj.
Qed.

(** The keys of two processes never meet on the same key. *)
Lemma transformed_other_process s p' k :
  p' ≠ pid s →
  transformed C_ProcessScope (in_process p' s) k ≠ transformed C_ProcessScope s k.
Proof.
  intros Hp H. simpl in H. apply string_app_inv_tail, str_of_int_inj in H. done.
Qed.

(** X4. A [ProcessScope] keeps processes apart. What one process stores
    under a key it reads back itself, while any other process holding the
    same scope object (after a fork) finds under that key exactly what it
    found before the write. *)
Theorem process_scope_isolates_processes s a o d k v p' :
  heap s !! a = Some o → instances o = Some d →
  so_class o = C_ProcessScope → p' ≠ pid s →
  let s1 := snd (Scope.__setitem__ a k v s) in
  Scope.__getitem__ a k s1 = (Ok v, s1) ∧
  fst (Scope.__getitem__ a k (in_process p' s1))
  = fst (Scope.__getitem__ a k (in_process p' s)).
Proof.
  intros Ho Hd Hc Hp.
  destruct (scope_setitem_then_getitem s a o d k v Ho Hd) as (_ & Hg & _);
    [by rewrite Hc|].
  split; [exact Hg|]. cbv zeta.
  rewrite (setitem_eq s a o d Ho Hd), decide_False by by rewrite Hc.
  cbn [snd].
  set (o1 := {| so_class := so_class o;
                instances := Some (<[transformed (so_class o) s k := v]> d);
                so_name := so_name o |}).
  assert (heap (in_process p' (set_heap (<[a := o1]> (heap s)) s)) !! a
          = Some o1) as Ho1 by apply lookup_insert_eq.
  rewrite (getitem_eq _ a o1 _ Ho1 eq_refl).
  rewrite (getitem_eq (in_process p' s) a o d Ho Hd).
  cbn [fst so_class o1]. rewrite Hc.
  change (transformed C_ProcessScope
            (in_process p' (set_heap (<[a := o1]> (heap s)) s)) k)
    with (transformed C_ProcessScope (in_process p' s) k).
  rewrite lookup_insert_ne; [done|].
  intros H. by apply (transformed_other_process s p' k Hp).
Qed.

(** Process 7 stores ['db']; process 8 does not find it. *)
Lemma process_scope_isolates_processes_witness :
  let s := snd (ScopeRegistry.get (Str "process") fresh_di) in
  let s1 := snd (Scope.__setitem__ 101 "db" (Obj 3) s) in
  Scope.__getitem__ 101 "db" s1 = (Ok (Obj 3), s1) ∧
  fst (Scope.__getitem__ 101 "db" (in_process 8 s1)) = Err KeyError.
Proof.
  cbv zeta.
  destruct (process_scope_isolates_processes
              (snd (ScopeRegistry.get (Str "process") fresh_di)) 101
              {| so_class := C_ProcessScope; instances := Some ∅;
                 so_name := None |} ∅ "db" (Obj 3) 8)
    as [H1 H2]; [reflexivity|reflexivity|reflexivity|discriminate|].
  split; [exact H1|]. rewrite H2. vm_compute. reflexivity.
Defined.

(** ** The scope registry *)

Lemma get_name s n c :
  wf s → instantiable c = true → _lookup s !! Str n = Some (Cls c) →
  ScopeRegistry.get (Str n) s
  = (Ok (ScopeInst (acquired_at c s)), acquired c s).
Proof.
  intros Hwf Hc Hn. unfold ScopeRegistry.get.
  rewrite (bind_Ok _ _ _ _ _ (resolve_name _ _ _ Hn (instantiable_subclass _ Hc))).
  unfold acquired_at, acquired.
  destruct (instance_of s c) as [a|] eqn:E.
  - pose proof (instance_of_Some _ _ _ E) as El.
    unfold bind at 1, get_state. unfold bind at 1, lift.
    rewrite (dict_contains_Some _ (Cls c) _ eq_refl El). simpl.
    unfold bind, ret. by rewrite (resolve_class_present _ _ _ El).
  - pose proof (instance_of_None _ _ Hwf E) as El.
    pose proof (get_class_absent _ _ El Hc) as G.
    unfold ScopeRegistry.get in G.
    by rewrite (bind_Ok _ _ _ _ _ (resolve_class_absent _ _ El
                  (instantiable_subclass _ Hc))) in G.
Qed.

(** X5. One instance per scope class. From a well-formed state, [get] of a
    scope class the registry can instantiate returns an instance of that
    class; a second [get] returns the same instance and changes nothing, and
    so does [get] of a name registered for the class. The instance is made
    on the first [get] only: when the registry held none, the one returned
    is new and its store is empty. *)
Theorem scope_registry_get_is_idempotent s c :
  wf s → instantiable c = true →
  ∃ a s1,
    ScopeRegistry.get (Cls c) s = (Ok (ScopeInst a), s1) ∧
    ScopeRegistry.get (Cls c) s1 = (Ok (ScopeInst a), s1) ∧
    class_of s1 a = Some c ∧
    (∀ n, _lookup s !! Str n = Some (Cls c) →
       ScopeRegistry.get (Str n) s = (Ok (ScopeInst a), s1) ∧
       ScopeRegistry.get (Str n) s1 = (Ok (ScopeInst a), s1)) ∧
    (instance_of s c = Some a → s1 = s) ∧
    (instance_of s c = None → heap s !! a = None ∧ store_of s1 a = Some ∅).
Proof.
  intros Hwf Hc. exists (acquired_at c s), (acquired c s).
  pose proof (wf_acquired s c Hwf) as Hwf1.
  pose proof (acquired_lookup s c Hwf Hc) as El.
  destruct (acquired_store s c Hwf Hc) as (o & d & Ho & Hcl & Hd & _).
  assert (acquired_at c (acquired c s) = acquired_at c s ∧
          acquired c (acquired c s) = acquired c s) as [Ha Hs].
  { assert (instance_of (acquired c s) c = Some (acquired_at c s)) as Hi
      by (unfold instance_of; by rewrite El).
    split.
    - unfold acquired_at at 1. by rewrite Hi.
    - unfold acquired at 1. by rewrite Hi. }
  split_and!.
  - by apply get_class.
  - by apply get_class_present.
  - unfold class_of. by rewrite Ho, <- Hcl.
  - intros n Hn. split; [by apply get_name|].
    destruct (extends_acquired s c Hwf) as (_ & _ & _ & _ & Hl & _).
    pose proof (get_name (acquired c s) n c Hwf1 Hc (Hl _ _ Hn)) as G.
    by rewrite Ha, Hs in G.
  - intros E. unfold acquired. by rewrite E.
  - intros E. unfold acquired_at, acquired, store_of. rewrite E. simpl.
    split; [|by rewrite lookup_insert_eq].
    destruct (heap s !! next s) eqn:Hh; [|done].
    pose proof (wf_fresh s Hwf _ (mk_is_Some _ _ Hh)). lia.
Qed.

(** On a new container the thread scope is made at the first [get]. *)
Lemma scope_registry_get_is_idempotent_witness :
  ∃ s1,
    ScopeRegistry.get (Cls C_ThreadScope) fresh_di = (Ok (ScopeInst 101), s1) ∧
    ScopeRegistry.get (Str "thread") s1 = (Ok (ScopeInst 101), s1) ∧
    store_of s1 101 = Some ∅.
Proof.
  destruct (scope_registry_get_is_idempotent fresh_di C_ThreadScope
              (wf_initial 7 100) eq_refl) as (a & s1 & H1 & _ & _ & Hn & _ & He).
  assert (a = 101) as ->.
  { assert (fst (ScopeRegistry.get (Cls C_ThreadScope) fresh_di)
            = Ok (ScopeInst 101)) as H by (vm_compute; reflexivity).
    rewrite H1 in H. by injection H. }
  exists s1. split_and!; [exact H1|by apply Hn|by apply He].
Defined.



(** X7. Registering a scope under a name. [add(obj, name)] of an object or
    class with the mapping interface under a hashable [name] succeeds;
    [resolve(name)] then returns [obj], and no other entry of the registry
    has changed. [add] of a class that is not a mapping raises [ValueError]
    and registers nothing. *)
Theorem scope_registry_add_then_resolve s obj name :
  let s1 := snd (ScopeRegistry.add obj (Some name) s) in
  (ScopeRegistry.is_scope obj = Ok true → hashable name = true →
   ScopeRegistry.add obj (Some name) s = (Ok tt, s1) ∧
   ScopeRegistry.resolve name s1 = (Ok obj, s1) ∧
   (∀ x, x ≠ name → _lookup s1 !! x = _lookup s !! x)) ∧
  (ScopeRegistry.is_scope obj = Ok false →
   ScopeRegistry.add obj (Some name) s = (Err ValueError, s)).
Proof.
  cbv zeta. unfold ScopeRegistry.add. split.
  - intros Hobj Hname. unfold bind, lift, ret. rewrite Hobj, Hname. simpl.
    split_and!; [done| |].
    + unfold ScopeRegistry.resolve, bind, get_state, lift. simpl.
      rewrite (dict_contains_Some _ name obj Hname (lookup_insert_eq _ _ _)).
      rewrite lookup_insert_eq. simpl. by rewrite Hobj.
    + intros x Hx. by rewrite lookup_insert_ne.
  - intros Hobj. unfold bind, lift. by rewrite Hobj.
Qed.

(** A scope made by [scope()] is registered as ['adhoc']. *)
Lemma scope_registry_add_then_resolve_witness :
  let s := snd (Di.scope fresh_di) in
  let s1 := snd (ScopeRegistry.add (ScopeInst 101) (Some (Str "adhoc")) s) in
  ScopeRegistry.resolve (Str "adhoc") s1 = (Ok (ScopeInst 101), s1) ∧
  ScopeRegistry.add (Cls (C_Other 0)) (Some (Str "int")) s = (Err ValueError, s).
Proof.
  cbv zeta.
  destruct (scope_registry_add_then_resolve (snd (Di.scope fresh_di))
              (ScopeInst 101) (Str "adhoc")) as [H _].
  destruct (H eq_refl eq_refl) as (_ & H2 & _).
  destruct (scope_registry_add_then_resolve (snd (Di.scope fresh_di))
              (Cls (C_Other 0)) (Str "int")) as [_ H3].
  split; [exact H2|exact (H3 eq_refl)].
Defined.

(** ** The binding table *)

(** X8. What [register] changes. [register(key, f, scope)] either raises
    and leaves the state as it was, or binds [key]: [Registry.get(key)] is
    then the pair of [f] and the scope reference the registry resolved,
    [has(key)] is true, a binding [key] had before is replaced, every other
    key is bound as before, and nothing else has changed; in particular no
    scope instance is made at registration. *)
Theorem register_changes_one_binding s key f scope :
  let r := fst (Di.register key (Some f) scope s) in
  let s1 := snd (Di.register key (Some f) scope s) in
  (∀ e, r = Err e → s1 = s) ∧
  (∀ x, r = Ok x →
     x = Di.Factory f ∧
     (∃ sc, ScopeRegistry.resolve scope s = (Ok sc, s) ∧
            Registry.get key s1 = (Ok (f, sc), s1)) ∧
     Registry.has s1 key = true ∧
     (∀ k, k ≠ key → _factories s1 !! k = _factories s !! k) ∧
     heap s1 = heap s ∧ _lookup s1 = _lookup s ∧
     _depends_obj s1 = _depends_obj s ∧ calls s1 = calls s).
Proof.
  cbv zeta.
  destruct (ScopeRegistry.resolve scope s) as [[sc|e] s0] eqn:E;
    pose proof (resolve_pure scope s) as Hp; rewrite E in Hp; simpl in Hp;
    subst s0.
  - rewrite (register_ok _ f _ _ _ E). split; [done|].
    intros x [= <-]. split_and!; try done.
    + exists sc. split; [done|]. apply Registry_get_eq, lookup_insert_eq.
    + apply has_true. simpl. rewrite lookup_insert_eq. by eexists.
    + intros k Hk. simpl. by rewrite lookup_insert_ne.
  - rewrite (register_err _ f _ _ _ E). split; [done|]. intros x [=].
Qed.

(** X9. An unbound key. When the first key asked for has no binding,
    [resolve] raises [KeyError] and changes nothing, whatever other keys
    follow and whether or not dependencies were declared for the key. *)
Theorem resolve_unbound_key_raises s K more_keys with_keys :
  _factories s !! K = None →
  Di.resolve (AStr K) more_keys with_keys s = (Err KeyError, s).
Proof.
  intros Hb.
  assert (Di._resolve_one (AStr K) s = (Err KeyError, s)) as E.
  { unfold Di._resolve_one.
    by rewrite (bind_Err _ _ _ _ _ (Registry_get_unbound _ _ Hb)). }
  unfold Di.resolve, Di._coerce_key_or_keys.
  assert (∀ l, mapM Di._resolve_one (AStr K :: l) s = (Err KeyError, s)) as Hm.
  { intros l. cbn [mapM]. by rewrite (bind_Err _ _ _ _ _ E). }
  destruct more_keys as [|k2 more]; cbn [app];
    by rewrite (bind_Err _ _ _ _ _ (Hm _)).
Qed.

(** ['K'] is unbound on a new container, also once dependencies are
    declared for it. *)
Lemma resolve_unbound_key_raises_witness :
  let s := snd (Di.depends_on (AStr "a") (Some (Str "K")) fresh_di) in
  Di.resolve (AStr "K") [AStr "a"] true s = (Err KeyError, s).
Proof.
  apply resolve_unbound_key_raises. reflexivity.
Defined.

(** ** Declared dependencies *)

Lemma add1_eq s obj k :
  hashable obj = true →
  DependencyRegistry.add1 obj (AStr k) s
  = (Ok tt,
     set_depends_obj
       (<[obj := {[k]} ∪ default ∅ (_depends_obj s !! obj)]> (_depends_obj s)) s).
Proof.
  intros Hh. unfold DependencyRegistry.add1. rewrite Hh. simpl.
  unfold bind, get_state, modify. simpl. by rewrite insert_insert_eq.
Qed.

Lemma add_eq s obj l :
  hashable obj = true →
  DependencyRegistry.add obj (AStr <$> l) s
  = (Ok tt,
     match l with
     | [] => s
     | _ => set_depends_obj
              (<[obj := list_to_set l ∪ default ∅ (_depends_obj s !! obj)]>
                 (_depends_obj s)) s
     end).
Proof.
  intros Hh. unfold DependencyRegistry.add.
  assert (∃ us, mapM (DependencyRegistry.add1 obj) (AStr <$> l) s
            = (Ok us,
               match l with
               | [] => s
               | _ => set_depends_obj
                        (<[obj := list_to_set l ∪ default ∅ (_depends_obj s !! obj)]>
                           (_depends_obj s)) s
               end)) as [us Hus]; [|by rewrite (bind_Ok _ _ _ _ _ Hus)].
  revert s. induction l as [|k l IH]; intros s; [by eexists|].
  cbn [fmap list_fmap mapM]. rewrite (bind_Ok _ _ _ _ _ (add1_eq s obj k Hh)).
  change (list_fmap _ _ AStr l) with (AStr <$> l).
  destruct (IH (set_depends_obj
                  (<[obj := {[k]} ∪ default ∅ (_depends_obj s !! obj)]>
                     (_depends_obj s)) s)) as [us Hus].
  rewrite (bind_Ok _ _ _ _ _ Hus). eexists. unfold ret. f_equal.
  destruct l as [|k2 l].
  - simpl. do 2 f_equal. set_solver.
  - cbn [_depends_obj set_depends_obj]. rewrite lookup_insert_eq. simpl.
    rewrite insert_insert_eq. unfold set_depends_obj. simpl. do 2 f_equal.
    set_solver.
Qed.

(** X10. Declaring dependencies. For a hashable [obj], [depends_on(keys,
    obj)] returns [obj]; afterwards [get_deps(obj)] is the set of the keys
    given together with those declared before, the declarations of every
    other object are as they were and nothing else has changed. With no key
    given nothing is recorded at all, so [get_deps] still answers [None]
    for an object that never had a declaration. *)
Theorem depends_on_adds_to_declared_set s key_or_keys obj :
  hashable obj = true →
  let keys := match key_or_keys with AStr k => [k] | AList l => l end in
  let s1 := snd (Di.depends_on key_or_keys (Some obj) s) in
  Di.depends_on key_or_keys (Some obj) s = (Ok (Di.Target obj), s1) ∧
  (keys ≠ [] →
   Di.get_deps obj s1
   = (Ok (Some (list_to_set keys ∪ default ∅ (_depends_obj s !! obj))), s1)) ∧
  (keys = [] → s1 = s) ∧
  (∀ obj', obj' ≠ obj → _depends_obj s1 !! obj' = _depends_obj s !! obj') ∧
  _factories s1 = _factories s ∧ _lookup s1 = _lookup s ∧ heap s1 = heap s.
Proof.
  intros Hh keys.
  assert (Di._coerce_key_or_keys key_or_keys [] = AStr <$> keys) as Hk
    by by destruct key_or_keys.
  assert (Di.depends_on key_or_keys (Some obj) s
          = (Ok (Di.Target obj),
             match keys with
             | [] => s
             | _ => set_depends_obj
                      (<[obj := list_to_set keys ∪ default ∅ (_depends_obj s !! obj)]>
                         (_depends_obj s)) s
             end)) as ->.
  { unfold Di.depends_on. rewrite Hk.
    by rewrite (bind_Ok _ _ _ _ _ (add_eq s obj keys Hh)). }
  cbn [snd]. split; [done|].
  destruct keys as [|k l] eqn:Ekeys; [done|].
  split_and!; try done.
  - intros _. unfold Di.get_deps, DependencyRegistry.get, bind, get_state, lift.
    simpl.
    rewrite (dict_contains_Some _ obj _ Hh (lookup_insert_eq _ _ _)). simpl.
    by rewrite lookup_insert_eq.
  - intros obj' Hne. simpl. by rewrite lookup_insert_ne.
Qed.

(** Two declarations for ['K'] on a new container add up. *)
Lemma depends_on_adds_to_declared_set_witness :
  let s := snd (Di.depends_on (AStr "a") (Some (Str "K")) fresh_di) in
  let s1 := snd (Di.depends_on (AList ["b"; "a"]) (Some (Str "K")) s) in
  Di.depends_on (AList ["b"; "a"]) (Some (Str "K")) s
  = (Ok (Di.Target (Str "K")), s1) ∧
  Di.get_deps (Str "K") s1 = (Ok (Some {["a"; "b"]}), s1) ∧
  fst (Di.get_deps (Str "a") s1) = Ok None.
Proof.
  cbv zeta.
  destruct (depends_on_adds_to_declared_set
              (snd (Di.depends_on (AStr "a") (Some (Str "K")) fresh_di))
              (AList ["b"; "a"]) (Str "K") eq_refl) as (H1 & H2 & _).
  split_and!; [exact H1| |vm_compute; reflexivity].
  rewrite H2 by discriminate. vm_compute. reflexivity.
Defined.

(** Registering under ['thread'] binds; under ['bogus'] nothing changes. *)
Lemma register_changes_one_binding_witness :
  let s1 := snd (Di.register "k" (Some (Fn 1 make_object)) (Str "thread") fresh_di) in
  Registry.get "k" s1 = (Ok (Fn 1 make_object, Cls C_ThreadScope), s1) ∧
  heap s1 = heap fresh_di ∧ _lookup s1 = _lookup fresh_di ∧
  snd (Di.register "k" (Some (Fn 1 make_object)) (Str "bogus") fresh_di) = fresh_di.
Proof.
  cbv zeta.
  destruct (register_changes_one_binding fresh_di "k" (Fn 1 make_object)
              (Str "thread")) as [_ H].
  destruct (H (Di.Factory (Fn 1 make_object)) eq_refl)
    as (_ & (sc & Hsc & Hget) & _ & _ & Hh & Hl & _).
  assert (sc = Cls C_ThreadScope) as ->.
  { assert (fst (ScopeRegistry.resolve (Str "thread") fresh_di)
            = Ok (Cls C_ThreadScope)) as E by reflexivity.
    rewrite Hsc in E. by injection E. }
  destruct (register_changes_one_binding fresh_di "k" (Fn 1 make_object)
              (Str "bogus")) as [H' _].
  split_and!; [exact Hget|exact Hh|exact Hl|exact (H' TypeError eq_refl)].
Defined.

(** X11. What [missing] would yield. For an object with a non-empty set of
    declared dependencies, [missing] returns an iterator over the declared
    keys that have no binding, each once; for an object without
    declarations it returns [None]. The state is not changed. *)
Theorem missing_yields_the_unbound_declared_keys s obj :
  hashable obj = true →
  (_depends_obj s !! obj = None →
   DependencyRegistry.missing obj s = (Ok MNone, s)) ∧
  (∀ deps, _depends_obj s !! obj = Some deps → deps ≠ ∅ →
   ∃ l, DependencyRegistry.missing obj s = (Ok (MIter (IFilterFalse l)), s) ∧
        NoDup l ∧
        ∀ k, k ∈ l ↔ k ∈ deps ∧ _factories s !! k = None).
Proof.
  intros Hh. unfold DependencyRegistry.missing, DependencyRegistry.get.
  split.
  - intros Hn. unfold bind, get_state, lift.
    by rewrite (dict_contains_None _ obj Hh Hn).
  - intros deps Hd Hne. unfold bind, get_state, lift.
    rewrite (dict_contains_Some _ obj _ Hh Hd), Hd. simpl.
    rewrite bool_decide_eq_false_2 by done.
    eexists. split; [done|]. split.
    + apply NoDup_filter, NoDup_elements.
    + intros k. rewrite list_elem_of_filter, elem_of_elements.
      unfold Registry.has. rewrite bool_decide_eq_false.
      rewrite <- eq_None_not_Some. tauto.
Qed.

(** ['K'] declares ['a'] and ['zz']; only ['a'] is bound. *)
Lemma missing_yields_the_unbound_declared_keys_witness :
  let s := snd (Di.depends_on (AList ["a"; "zz"]) (Some (Str "K")) abk_di) in
  DependencyRegistry.missing (Str "K") s = (Ok (MIter (IFilterFalse ["zz"])), s) ∧
  DependencyRegistry.missing (Str "a") s = (Ok MNone, s).
Proof.
  cbv zeta.
  destruct (missing_yields_the_unbound_declared_keys
              (snd (Di.depends_on (AList ["a"; "zz"]) (Some (Str "K")) abk_di))
              (Str "a") eq_refl) as [H _].
  split; [vm_compute; reflexivity|apply H; reflexivity].
Defined.

(** ** Failures during resolution *)

(** X12. A factory that raises. On a miss, when the factory raises [e],
    [resolve] raises [e] itself; the factory was called once, nothing is
    cached for the key, and the container is still well formed with both
    tables unchanged, so the next [resolve] calls the factory again. *)
Theorem factory_exception_propagates s K g body c e :
  wf s → _factories s !! K = Some (Fn g body, Cls c) → no_deps s K →
  instantiable c = true → cached s c K = None →
  body (next (acquired c s)) = Err e →
  let s1 := snd (Di.resolve (AStr K) [] false s) in
  Di.resolve (AStr K) [] false s = (Err e, s1) ∧
  call_count g s1 = S (call_count g s) ∧
  cached s1 c K = None ∧
  wf s1 ∧ _factories s1 = _factories s ∧ _depends_obj s1 = _depends_obj s.
Proof.
  intros Hwf Hb Hnd Hc Hv He. cbv zeta. rewrite resolve_single.
  assert (Di.call (Fn g body) (acquired c s)
          = (Err e, set_calls (g :: calls (acquired c s))
                      (set_next (S (next (acquired c s))) (acquired c s))))
    as Ecall.
  { simpl. unfold bind, alloc, modify, lift. simpl. by rewrite He. }
  pose proof (resolve_one_miss _ _ _ _ Hwf Hb Hnd Hc Hv) as E.
  rewrite Ecall in E. rewrite E. cbn [snd].
  destruct (resolve_one_frame _ _ _ _ Hwf E) as (Hwf1 & _).
  destruct (tables_resolve_one (_factories s) (_depends_obj s) (AStr K) s)
    as [HF HD]; [done|]. rewrite E in HF, HD. simpl in HF, HD.
  split_and!; try done.
  - apply call_count_cons. simpl. by rewrite acquired_calls.
  - rewrite (cached_same (acquired c s)) by done.
    by rewrite cached_acquired.
Qed.

(** A factory that always raises, registered under ['singleton']. *)
Lemma factory_exception_propagates_witness :
  let f := Fn 4 (fun _ => Err (UserError 1)) in
  let s := bound "k" f (Cls C_SingletonScope) fresh_di in
  let s1 := snd (Di.resolve (AStr "k") [] false s) in
  Di.resolve (AStr "k") [] false s = (Err (UserError 1), s1) ∧
  call_count 4 s1 = 1 ∧
  cached s1 C_SingletonScope "k" = None.
Proof.
  cbv zeta.
  destruct (factory_exception_propagates
              (bound "k" (Fn 4 (fun _ => Err (UserError 1)))
                 (Cls C_SingletonScope) fresh_di)
              "k" 4 (fun _ => Err (UserError 1)) C_SingletonScope (UserError 1))
    as (H1 & H2 & H3 & _); try reflexivity.
  - apply wf_bound, wf_initial.
  - by left.
  - split_and!; [exact H1|exact H2|exact H3].
Defined.

(** X13. Several keys, one of them unbound. When the first key resolves and
    the second has no binding, [resolve] raises [KeyError], yet the first
    key was resolved: the state is the one its resolution left, with its
    instance cached when its scope keeps instances. *)
Theorem resolve_keeps_work_done_before_a_failure s k1 k2 more_keys :
  wf s → resolvable s k1 → _factories s !! k2 = None →
  ∃ v s1,
    Di.resolve (AStr k1) [] false s = (Ok (Di.Value v), s1) ∧
    Di.resolve (AStr k1) (AStr k2 :: more_keys) false s = (Err KeyError, s1) ∧
    (∀ f, _factories s !! k1 = Some (f, Cls C_SingletonScope) →
          cached s1 C_SingletonScope k1 = Some v).
Proof.
  intros Hwf Hk1 Hk2.
  destruct (resolve_one_resolvable s k1 Hwf Hk1)
    as (v & s1 & E & _ & Hbind & _ & _ & Hsing).
  exists v, s1. split_and!; [by rewrite resolve_single, E| |done].
  assert (_factories s1 !! k2 = None) as Hk2'.
  { destruct (tables_resolve_one (_factories s) (_depends_obj s) (AStr k1) s)
      as [HF _]; [done|]. rewrite E in HF. simpl in HF. by rewrite HF. }
  assert (Di._resolve_one (AStr k2) s1 = (Err KeyError, s1)) as E2.
  { unfold Di._resolve_one.
    by rewrite (bind_Err _ _ _ _ _ (Registry_get_unbound _ _ Hk2')). }
  assert (mapM Di._resolve_one (AStr k2 :: more_keys) s1 = (Err KeyError, s1))
    as Hm2 by (cbn [mapM]; by rewrite (bind_Err _ _ _ _ _ E2)).
  assert (mapM Di._resolve_one (AStr k1 :: AStr k2 :: more_keys) s
          = (Err KeyError, s1)) as Hm.
  { change (mapM Di._resolve_one (AStr k1 :: AStr k2 :: more_keys))
      with (y <- Di._resolve_one (AStr k1) ;;
            ys <- mapM Di._resolve_one (AStr k2 :: more_keys) ;;
            ret (y :: ys)).
    rewrite (bind_Ok _ _ _ _ _ E). by rewrite (bind_Err _ _ _ _ _ Hm2). }
  unfold Di.resolve, Di._coerce_key_or_keys. cbn [app].
  by rewrite (bind_Err _ _ _ _ _ Hm).
Qed.

(** [resolve('a', 'zz')] where only ['a'] is bound. *)
Lemma resolve_keeps_work_done_before_a_failure_witness :
  ∃ s1,
    Di.resolve (AStr "a") [AStr "zz"] false abk_di = (Err KeyError, s1) ∧
    cached s1 C_SingletonScope "a" = Some (Obj 102).
Proof.
  destruct (resolve_keeps_work_done_before_a_failure abk_di "a" "zz" []
              wf_abk_di) as (v & s1 & H1 & H2 & H3).
  - apply resolvable_abk_di. set_solver.
  - reflexivity.
  - exists s1. split; [exact H2|].
    assert (v = Obj 102) as <-.
    { assert (fst (Di.resolve (AStr "a") [] false abk_di)
              = Ok (Di.Value (Obj 102))) as E by (vm_compute; reflexivity).
      rewrite H1 in E. by injection E. }
    apply (H3 (Fn 1 make_object)). reflexivity.
Defined.

(** ** The shape of a request and of its result *)

(** X14. Requests [resolve] rejects before resolving anything: an empty
    list of keys raises [IndexError] (there is no first result to return),
    and a list given together with further positional keys raises
    [TypeError] (the list itself is taken for a key, and a list is
    unhashable). The state does not change. *)
Theorem resolve_rejects_empty_and_mixed_requests s l k more_keys with_keys :
  Di.resolve (AList []) [] with_keys s = (Err IndexError, s) ∧
  Di.resolve (AList l) (k :: more_keys) with_keys s = (Err TypeError, s).
Proof. split; [by destruct with_keys|done]. Qed.

(** X15. [with_keys]. Asking for the keys changes neither what is resolved
    nor the state left: the result pairs each key with the value that the
    same call without [with_keys] returns, a sequence of values becoming the
    sequence of pairs and a single value the pair of the first key. *)
Theorem resolve_with_keys_pairs_keys_and_values s key_or_keys more_keys :
  let keys := Di._coerce_key_or_keys key_or_keys more_keys in
  Di.resolve key_or_keys more_keys true s
  = match Di.resolve key_or_keys more_keys false s with
    | (Ok (Di.Values l), s') => (Ok (Di.KeyValues (zip keys l)), s')
    | (Ok (Di.Value v), s') =>
        (match keys with
         | k :: _ => Ok (Di.KeyValue (k, v))
         | [] => Err IndexError
         end, s')
    | other => other
    end.
Proof.
  cbv zeta. unfold Di.resolve.
  set (keys := Di._coerce_key_or_keys key_or_keys more_keys).
  unfold bind.
  destruct (mapM Di._resolve_one keys s) as [[l|e] s'] eqn:E; [|done].
  pose proof (mapM_length _ _ _ _ _ E) as Hlen.
  destruct more_keys as [|k2 more]; [|done].
  destruct l as [|v l], keys as [|k keys']; simpl in Hlen; try done.
Qed.

(** [resolve('a', 'b', with_keys=True)] and [resolve('a', with_keys=True)]. *)
Lemma resolve_with_keys_pairs_keys_and_values_witness :
  fst (Di.resolve (AStr "a") [AStr "b"] true abk_di)
  = Ok (Di.KeyValues [(AStr "a", Obj 102); (AStr "b", Obj 103)]) ∧
  fst (Di.resolve (AStr "a") [] true abk_di)
  = Ok (Di.KeyValue (AStr "a", Obj 102)).
Proof.
  rewrite (resolve_with_keys_pairs_keys_and_values abk_di (AStr "a") [AStr "b"]).
  rewrite (resolve_with_keys_pairs_keys_and_values abk_di (AStr "a") []).
  split; vm_compute; reflexivity.
Defined.

(** ** A new container *)

Lemma initial_lookup_other n :
  n ∉ ["singleton"; "process"; "thread"; "none"] →
  initial_lookup !! Str n = None.
Proof.
  intros Hn. unfold initial_lookup.
  rewrite !lookup_insert_ne, lookup_empty; [done|..];
    intros [= <-]; apply Hn; set_solver.
Qed.

(** X16. The scope names of a new container. On the container [Di()]
    returns, [register(key, f, name)] succeeds exactly for the four names
    ['singleton'], ['process'], ['thread'] and ['none'], binding [key] to the
    class whose derived name it is; any other str is refused with
    [TypeError] and binds nothing. No key is bound and no scope instance
    exists yet. *)
Theorem new_container_scope_names pid0 a key f n :
  let s := snd (Di_new pid0 a) in
  fst (Di_new pid0 a) = Ok tt ∧
  wf s ∧ _factories s = ∅ ∧ _depends_obj s = ∅ ∧ heap s = ∅ ∧
  (n ∈ ["singleton"; "process"; "thread"; "none"] →
   ∃ c, Scope.name c = Ok n ∧ Scope.register c = true ∧
        Di.register key (Some f) (Str n) s
        = (Ok (Di.Factory f), bound key f (Cls c) s)) ∧
  (n ∉ ["singleton"; "process"; "thread"; "none"] →
   Di.register key (Some f) (Str n) s = (Err TypeError, s)).
Proof.
  rewrite Di_new_eq. cbv zeta. cbn [fst snd].
  split_and!; try done.
  - apply wf_initial.
  - intros Hn. rewrite !elem_of_cons, elem_of_nil in Hn.
    destruct Hn as [->|[->|[->|[->|[]]]]];
      [exists C_SingletonScope|exists C_ProcessScope
      |exists C_ThreadScope|exists C_NoneScope];
      (split_and!; [reflexivity|reflexivity|]);
      apply register_ok; by apply resolve_name.
  - intros Hn. apply register_err.
    unfold ScopeRegistry.resolve, bind, get_state, lift.
    rewrite (dict_contains_None (_lookup (initial pid0 a)) (Str n) eq_refl
               (initial_lookup_other n Hn)).
    done.
Qed.

Lemma new_container_scope_names_witness :
  let s := snd (Di_new 7 100) in
  (∃ c, Scope.name c = Ok "process" ∧ Scope.register c = true ∧
        Di.register "k" (Some (Fn 1 make_object)) (Str "process") s
        = (Ok (Di.Factory (Fn 1 make_object)),
           bound "k" (Fn 1 make_object) (Cls c) s)) ∧
  Di.register "k" (Some (Fn 1 make_object)) (Str "named") s = (Err TypeError, s).
Proof.
  destruct (new_container_scope_names 7 100 "k" (Fn 1 make_object) "process")
    as (_ & _ & _ & _ & _ & H1 & _).
  destruct (new_container_scope_names 7 100 "k" (Fn 1 make_object) "named")
    as (_ & _ & _ & _ & _ & _ & H2).
  split.
  - apply H1. by apply (bool_decide_unpack _).
  - apply H2. by apply (bool_decide_unpack _).
Defined.

(** ** Stability of the cache *)

Lemma mapM_resolve_one_wf keys s r s' :
  wf s → mapM Di._resolve_one keys s = (r, s') →
  wf s' ∧ _factories s' = _factories s ∧ _depends_obj s' = _depends_obj s.
Proof.
  intros Hwf E.
  destruct (pres_mapM (tables (_factories s) (_depends_obj s)) Di._resolve_one
              keys (tables_resolve_one _ _) s) as [HF HD]; [done|].
  rewrite E in HF, HD. simpl in HF, HD. split; [|done]. clear HF HD.
  revert s r Hwf E. induction keys as [|k keys IH]; intros s r Hwf; simpl.
  - by intros [= _ <-].
  - intros H. apply bind_inv in H as [(y & s1 & E1 & H)|(e & E1 & _)].
    2: by destruct (resolve_one_frame _ _ _ _ Hwf E1).
    destruct (resolve_one_frame _ _ _ _ Hwf E1) as (Hwf1 & _).
    apply bind_inv in H as [(ys & s2 & E2 & H)|(e & E2 & _)].
    + unfold ret in H. injection H as _ <-. by apply (IH s1 (Ok ys)).
    + by apply (IH s1 (Err e)).
Qed.

Lemma cached_inv s c k v :
  cached s c k = Some v →
  ∃ a o d, _lookup s !! Cls c = Some (ScopeInst a) ∧ heap s !! a = Some o ∧
           instances o = Some d ∧ d !! transformed c s k = Some v.
Proof.
  unfold cached. destruct (instance_of s c) as [a|] eqn:Ea; [|done]. simpl.
  destruct (heap s !! a) as [o|] eqn:Eo; [|done]. simpl.
  destruct (instances o) as [d|] eqn:Ed; [|done]. simpl.
  intros Hv. exists a, o, d. split; [by apply instance_of_Some|done].
Qed.

Lemma cached_intro s c k v a o d :
  _lookup s !! Cls c = Some (ScopeInst a) → heap s !! a = Some o →
  instances o = Some d → d !! transformed c s k = Some v →
  cached s c k = Some v.
Proof.
  intros Hl Ho Hd Hv. unfold cached, instance_of. rewrite Hl. simpl.
  rewrite Ho. simpl. rewrite Hd. done.
Qed.

(** One resolution, whatever it returns or raises, leaves in place every
    instance a scope of the registry holds: the only write is the one of a
    miss, under a key the scope did not hold. *)
Lemma resolve_one_keeps_cached key s r s' c k0 v :
  wf s → Di._resolve_one key s = (r, s') →
  cached s c k0 = Some v → cached s' c k0 = Some v.
Proof.
  intros Hwf H Hv.
  destruct key as [k|l]; simpl in H; [|by injection H as _ <-].
  destruct (_factories s !! k) as [[f sc]|] eqn:Hb.
  2: { rewrite (bind_Err _ _ _ _ _ (Registry_get_unbound _ _ Hb)) in H.
       by injection H as _ <-. }
  rewrite (bind_Ok _ _ _ _ _ (Registry_get_eq _ _ _ Hb)) in H.
  apply bind_inv in H as [(m & s0 & Hm & H)|(e & Hm & ->)].
  2: { pose proof (missing_pure (Str k) s) as Hp. rewrite Hm in Hp.
       simpl in Hp. by subst. }
  pose proof (missing_pure (Str k) s) as Hp. rewrite Hm in Hp.
  simpl in Hp. subst s0.
  destruct (truthy m); [by injection H as _ <-|].
  assert (∀ r1 s1, ScopeRegistry.get sc s = (r1, s1) →
            wf s1 ∧ cached s1 c k0 = Some v) as Hget.
  { intros r1 s1 Hg.
    destruct (get_frame _ _ _ _ Hwf Hg) as (Hwf1 & Hext & _).
    split; [done|].
    destruct Hext as (_ & _ & Hpid & _ & Hl & Hh).
    destruct (cached_inv _ _ _ _ Hv) as (a & o & d & Ha & Ho & Hd & Hk).
    apply (cached_intro s1 c k0 v a o d); eauto.
    by rewrite (transformed_pid c s s1 k0 Hpid). }
  apply bind_inv in H as [(x & s1 & Hg & H)|(e & Hg & ->)].
  2: by apply (Hget _ _ Hg).
  destruct (Hget _ _ Hg) as [Hwf1 Hv1]. clear Hget.
  apply bind_inv in H as [(b & s2 & Hc & H)|(e & Hc & ->)].
  2: { pose proof (scope_contains_pure x k s1) as Hp. rewrite Hc in Hp.
       simpl in Hp. by subst. }
  pose proof (scope_contains_pure x k s1) as Hp. rewrite Hc in Hp.
  simpl in Hp. subst s2.
  destruct b.
  { pose proof (scope_getitem_pure x k s1) as Hp. rewrite H in Hp.
    simpl in Hp. by subst. }
  apply bind_inv in H as [(w & s2 & Hcall & H)|(e & Hcall & ->)].
  2: { destruct (call_frame _ _ _ _ Hcall) as (Hh2 & Hl2 & Hp2 & _).
       by rewrite (cached_same _ _ _ _ Hh2 Hl2 Hp2). }
  destruct (call_frame _ _ _ _ Hcall) as (Hh2 & Hl2 & Hp2 & _).
  pose proof (wf_call _ _ _ _ Hwf1 Hcall) as Hwf2.
  assert (cached s2 c k0 = Some v) as Hv2
    by (by rewrite (cached_same _ _ _ _ Hh2 Hl2 Hp2)).
  assert (∀ r3 s3, scope_setitem x k w s2 = (r3, s3) →
            cached s3 c k0 = Some v) as Hset.
  { intros r3 s3 Hs.
    destruct x as [| |a0|]; try (by injection Hs as _ <-). simpl in Hs, Hc.
    destruct (heap s2 !! a0) as [o0|] eqn:Ho0.
    2: { unfold Scope.__setitem__, bind, load in Hs. rewrite Ho0 in Hs.
         by injection Hs as _ <-. }
    destruct (instances o0) as [d0|] eqn:Hd0.
    2: { unfold Scope.__setitem__ in Hs.
         rewrite (bind_Ok _ _ _ _ _ (load_eq _ _ _ Ho0)) in Hs.
         destruct (so_class o0);
           rewrite ?(bind_Ok _ _ _ _ _ (key_transform_eq s2 a0 o0 Ho0 _)),
                   ?(bind_Err _ _ _ _ _ (get_instances_none _ _ _ Ho0 Hd0))
             in Hs;
           by injection Hs as _ <-. }
    rewrite (setitem_eq s2 a0 o0 d0 Ho0 Hd0) in Hs. injection Hs as _ <-.
    destruct (decide (so_class o0 = C_NoneScope)); [done|].
    destruct (cached_inv _ _ _ _ Hv2) as (a & o & d & Ha & Ho & Hd & Hk).
    destruct (decide (a = a0)) as [->|Hne].
    - assert (o0 = o) as -> by congruence.
      assert (d0 = d) as -> by congruence.
      destruct (wf_class s2 Hwf2 _ _ Ha) as (a' & o' & d' & [= <-] & Ho' & Hc' & _).
      assert (so_class o = c) as Hcl by congruence.
      assert (heap s1 !! a0 = Some o) as Ho1 by (by rewrite <- Hh2).
      rewrite (contains_eq s1 a0 o d Ho1 Hd k) in Hc.
      injection Hc as Hc. apply bool_decide_eq_false in Hc.
      eapply cached_intro; [exact Ha|apply lookup_insert_eq|done|]. simpl.
      rewrite Hcl.
      assert (transformed c s1 k = transformed c s2 k) as Et
        by (symmetry; by apply transformed_pid).
      rewrite (transformed_pid c s2 (set_heap _ s2) k0) by done.
      rewrite lookup_insert_ne; [done|].
      intros Heq. apply Hc. rewrite Hcl, Et, Heq. by eexists.
    - eapply cached_intro; [exact Ha| |exact Hd|].
      + simpl. by rewrite lookup_insert_ne.
      + by rewrite (transformed_pid c s2 (set_heap _ s2) k0). }
  apply bind_inv in H as [([] & s3 & Hs & H)|(e & Hs & ->)].
  - injection H as _ <-. by apply (Hset _ _ Hs).
  - by apply (Hset _ _ Hs).
Qed.

Lemma mapM_resolve_one_keeps_cached keys s r s' c k0 v :
  wf s → mapM Di._resolve_one keys s = (r, s') →
  cached s c k0 = Some v → cached s' c k0 = Some v.
Proof.
  revert s r. induction keys as [|k keys IH]; intros s r Hwf; simpl.
  - by intros [= _ <-].
  - intros H Hv. apply bind_inv in H as [(y & s1 & E1 & H)|(e & E1 & _)].
    2: by apply (resolve_one_keeps_cached _ _ _ _ _ _ _ Hwf E1).
    destruct (resolve_one_frame _ _ _ _ Hwf E1) as (Hwf1 & _).
    pose proof (resolve_one_keeps_cached _ _ _ _ _ _ _ Hwf E1 Hv) as Hv1.
    apply bind_inv in H as [(ys & s2 & E2 & H)|(e & E2 & _)].
    + unfold ret in H. injection H as _ <-. by apply (IH s1 (Ok ys)).
    + by apply (IH s1 (Err e)).
Qed.

(** A hit needs no more than the cached instance: the class the key is
    bound to has its scope instance in the registry already. *)
Lemma resolve_one_hit_cached s k f c v :
  wf s → _factories s !! k = Some (f, Cls c) → no_deps s k →
  cached s c k = Some v →
  Di._resolve_one (AStr k) s = (Ok v, s).
Proof.
  intros Hwf Hb Hnd Hv.
  destruct (cached_inv _ _ _ _ Hv) as (a & o & d & Ha & Ho & Hd & Hk).
  destruct (wf_class s Hwf _ _ Ha) as (a' & o' & d' & [= <-] & Ho' & Hc' & _).
  assert (so_class o = c) as Hcl by congruence.
  unfold Di._resolve_one.
  step (Registry_get_eq _ _ _ Hb).
  step (missing_no_deps _ _ Hnd).
  step (get_class_present _ _ _ Ha).
  rewrite (bind_Ok _ _ _ _ _ (contains_eq _ _ _ _ Ho Hd _)).
  rewrite Hcl, Hk. simpl.
  rewrite (getitem_eq _ _ _ _ Ho Hd), Hcl, Hk. done.
Qed.

(** X17. Once cached, never evicted. When the scope the registry keeps for
    the class [c] holds the instance [v] for [K], then after resolving any
    keys, each resolution returning or raising, it still holds [v] for
    [K]. If moreover [K] is bound to [c] and has no declared dependency,
    [resolve(K)] then returns [v] itself and changes nothing, so the
    factory is not called; if [K] is bound and has declared dependencies,
    [resolve(K)] raises [UnresolvableError] and changes nothing, the
    instance staying where it is. *)
Theorem cached_instance_survives_later_resolutions s keys r s' K c v :
  wf s → cached s c K = Some v →
  mapM Di._resolve_one keys s = (r, s') →
  cached s' c K = Some v ∧
  (∀ f, _factories s !! K = Some (f, Cls c) → no_deps s K →
        Di.resolve (AStr K) [] false s' = (Ok (Di.Value v), s')) ∧
  (∀ b deps, _factories s !! K = Some b →
        _depends_obj s !! Str K = Some deps → deps ≠ ∅ →
        ∃ m, Di.resolve (AStr K) [] false s'
             = (Err (UnresolvableError (AStr K) (MIter m)), s')).
Proof.
  intros Hwf Hv E.
  pose proof (mapM_resolve_one_keeps_cached _ _ _ _ _ _ _ Hwf E Hv) as Hv'.
  destruct (mapM_resolve_one_wf _ _ _ _ Hwf E) as (Hwf' & HF & HD).
  split_and!; [done| |].
  - intros f Hb Hnd.
    rewrite resolve_single.
    rewrite (resolve_one_hit_cached s' K f c v Hwf'); try done.
    + by rewrite HF.
    + unfold no_deps. by rewrite HD.
  - intros b deps Hb Hd Hne. rewrite <- HF in Hb. rewrite <- HD in Hd.
    eexists. rewrite resolve_single. unfold Di._resolve_one.
    step (Registry_get_eq _ _ _ Hb). destruct b as [f sc].
    step (missing_declared _ _ _ Hd Hne). done.
Qed.

(** ['a'] is resolved first; resolving ['b'], the unbound ['zz'] (which
    raises) and ['K'] afterwards does not disturb its instance. *)
Lemma cached_instance_survives_later_resolutions_witness :
  let s := snd (Di.resolve (AStr "a") [] false abk_di) in
  let s' := snd (mapM Di._resolve_one [AStr "b"; AStr "zz"; AStr "K"] s) in
  fst (mapM Di._resolve_one [AStr "b"; AStr "zz"; AStr "K"] s) = Err KeyError ∧
  cached s' C_SingletonScope "a" = Some (Obj 102) ∧
  Di.resolve (AStr "a") [] false s' = (Ok (Di.Value (Obj 102)), s').
Proof.
  cbv zeta.
  set (s := snd (Di.resolve (AStr "a") [] false abk_di)).
  assert (wf s) as Hwf.
  { destruct (Di._resolve_one (AStr "a") abk_di) as [r s0] eqn:E.
    destruct (resolve_one_frame _ _ _ _ wf_abk_di E) as (H & _).
    unfold s. rewrite resolve_single_state, E. exact H. }
  assert (_factories s !! "a" = Some (Fn 1 make_object, Cls C_SingletonScope))
    as Hb by (vm_compute; reflexivity).
  assert (cached s C_SingletonScope "a" = Some (Obj 102)) as Hv
    by (vm_compute; reflexivity).
  destruct (mapM Di._resolve_one [AStr "b"; AStr "zz"; AStr "K"] s)
    as [r s'] eqn:E.
  destruct (cached_instance_survives_later_resolutions s
              [AStr "b"; AStr "zz"; AStr "K"] r s' "a" C_SingletonScope
              (Obj 102) Hwf Hv E) as (H1 & H2 & _).
  split_and!; [|exact H1|exact (H2 _ Hb (or_introl eq_refl))].
  apply (f_equal fst) in E. rewrite <- E. vm_compute. reflexivity.
Defined.

(** ** [resolve_deps] *)

(** X18. Resolving the dependencies of an object. [resolve_deps(obj)]
    raises [TypeError] when nothing was declared for [obj], the keys being
    [None] then; when exactly one key was declared, it does what
    [resolve] of that key does and returns its instance. *)
Theorem resolve_deps_of_one_key s obj k with_keys :
  hashable obj = true →
  (_depends_obj s !! obj = None →
   Di.resolve_deps obj with_keys s = (Err TypeError, s)) ∧
  (_depends_obj s !! obj = Some {[k]} →
   Di.resolve_deps obj with_keys s = Di.resolve (AStr k) [] with_keys s).
Proof.
  intros Hh. unfold Di.resolve_deps, Di.get_deps.
  split; intros Hd.
  - assert (DependencyRegistry.get obj s = (Ok None, s)) as E.
    { unfold DependencyRegistry.get, bind, get_state, lift.
      by rewrite (dict_contains_None _ obj Hh Hd). }
    by rewrite (bind_Ok _ _ _ _ _ E).
  - assert (DependencyRegistry.get obj s = (Ok (Some {[k]}), s)) as E.
    { unfold DependencyRegistry.get, bind, get_state, lift.
      by rewrite (dict_contains_Some _ obj _ Hh Hd), Hd. }
    rewrite (bind_Ok _ _ _ _ _ E). by rewrite elements_singleton.
Qed.

(** A function object declares ['a']: its dependencies resolve to the
    instance of ['a']; an object with no declaration gives [TypeError]. *)
Lemma resolve_deps_of_one_key_witness :
  let s := snd (Di.depends_on (AStr "a") (Some (Obj 50)) abk_di) in
  fst (Di.resolve_deps (Obj 50) false s) = Ok (Di.Value (Obj 102)) ∧
  Di.resolve_deps (Obj 51) false s = (Err TypeError, s).
Proof.
  cbv zeta.
  set (s := snd (Di.depends_on (AStr "a") (Some (Obj 50)) abk_di)).
  destruct (resolve_deps_of_one_key s (Obj 50) "a" false eq_refl) as [_ H1].
  destruct (resolve_deps_of_one_key s (Obj 51) "a" false eq_refl) as [H2 _].
  split.
  - rewrite H1; [vm_compute; reflexivity|]. vm_compute. reflexivity.
  - apply H2. reflexivity.
Defined.

(** ** A process-scoped key after a fork *)

Lemma wf_in_process p s : wf s → wf (in_process p s).
Proof. by intros []. Qed.

Lemma acquired_in_process p c s :
  acquired c (in_process p s) = in_process p (acquired c s).
Proof.
  unfold acquired, instance_of. simpl.
  by destruct (_lookup s !! Cls c) as [[]|].
Qed.

Lemma cached_in_process_same p s s2 c k :
  heap s2 = heap s → _lookup s2 = _lookup s →
  cached (in_process p s2) c k = cached (in_process p s) c k.
Proof.
  intros Hh Hl. unfold cached, instance_of. simpl. by rewrite Hh, Hl.
Qed.

(** X19. A process-scoped instance is not inherited. When [K] is bound in
    the process scope and a process [p'] other than the current one finds
    no instance for [K], then after the current process resolved [K] (and
    holds its instance) process [p'] still finds none: in a child process
    [resolve(K)] will build its own. *)
Theorem process_scoped_instance_is_not_inherited s K f p' :
  wf s → _factories s !! K = Some (f, Cls C_ProcessScope) → no_deps s K →
  returns f → p' ≠ pid s →
  cached (in_process p' s) C_ProcessScope K = None →
  ∃ v s1,
    Di.resolve (AStr K) [] false s = (Ok (Di.Value v), s1) ∧
    cached s1 C_ProcessScope K = Some v ∧
    cached (in_process p' s1) C_ProcessScope K = None.
Proof.
  intros Hwf Hb Hnd Hret Hp Hchild.
  destruct (cached s C_ProcessScope K) as [v|] eqn:Hv.
  { exists v, s. rewrite resolve_single.
    by rewrite (resolve_one_hit _ _ _ _ _ Hwf Hb Hnd eq_refl Hv). }
  destruct (returns_call f (acquired C_ProcessScope s) Hret) as (v & s2 & Ecall).
  destruct (resolve_one_miss_ok _ _ _ _ _ _ Hwf Hb Hnd eq_refl Hv Ecall)
    as (s1 & E & Hcached & _).
  exists v, s1. split_and!; [by rewrite resolve_single, E|by apply Hcached|].
  rewrite (resolve_one_miss _ _ _ _ Hwf Hb Hnd eq_refl Hv), Ecall in E.
  injection E as <-.
  destruct (acquired_store s C_ProcessScope Hwf eq_refl)
    as (o & d & Ho & Hcl & Hd & _).
  destruct (call_frame _ _ _ _ Ecall) as (Hh2 & Hl2 & Hp2 & _).
  pose proof (acquired_lookup s C_ProcessScope Hwf eq_refl) as El.
  rewrite <- Hh2 in Ho. rewrite <- Hl2 in El.
  rewrite (setitem_eq _ _ _ _ Ho Hd), decide_False by by rewrite Hcl.
  cbn [snd].
  assert (cached (in_process p' s2) C_ProcessScope K = None) as Hbefore.
  { rewrite (cached_in_process_same p' (acquired C_ProcessScope s)) by done.
    rewrite <- acquired_in_process.
    rewrite cached_acquired by by apply wf_in_process. done. }
  unfold cached, instance_of in Hbefore |- *. simpl in Hbefore |- *.
  rewrite El in Hbefore |- *. simpl in Hbefore |- *.
  rewrite lookup_insert_eq. rewrite Ho in Hbefore. simpl in Hbefore |- *.
  rewrite Hd in Hbefore. simpl in Hbefore.
  rewrite lookup_insert_ne; [done|]. rewrite Hcl.
  intros H. symmetry in H. revert H.
  apply (transformed_other_process s2 p' K). by rewrite Hp2, acquired_pid.
Qed.

(** Process 7 resolves ['p']; process 8 finds no instance for it. *)
Lemma process_scoped_instance_is_not_inherited_witness :
  let s := bound "p" (Fn 1 make_object) (Cls C_ProcessScope) fresh_di in
  ∃ v s1,
    Di.resolve (AStr "p") [] false s = (Ok (Di.Value v), s1) ∧
    cached s1 C_ProcessScope "p" = Some v ∧
    cached (in_process 8 s1) C_ProcessScope "p" = None.
Proof.
  apply (process_scoped_instance_is_not_inherited
           (bound "p" (Fn 1 make_object) (Cls C_ProcessScope) fresh_di)
           "p" (Fn 1 make_object) 8); try reflexivity.
  - apply wf_bound, wf_initial.
  - by left.
  - intros a. by exists (Obj a).
  - discriminate.
Defined.

(** ** The invariant of the container *)

Lemma wf_new_instance s o :
  wf s → (so_class o = C_NoneScope → instances o = Some ∅) →
  wf (set_heap (<[next s := o]> (heap s)) (set_next (S (next s)) s)).
Proof.
  intros Hwf Hnone. pose proof (wf_fresh s Hwf) as Hfr.
  split; simpl; try apply Hwf.
  - intros c x Hx.
    destruct (wf_class s Hwf c x Hx) as (a & o' & d & -> & Ho & Hc & Hd).
    exists a, o', d. split; [done|]. rewrite lookup_insert_ne; [done|].
    intros <-. pose proof (Hfr _ (mk_is_Some _ _ Ho)). lia.
  - intros a [o' Ho']. destruct (decide (a = next s)) as [->|Hne]; [lia|].
    rewrite lookup_insert_ne in Ho' by done.
    specialize (Hfr a (mk_is_Some _ _ Ho')). lia.
  - intros a o'. destruct (decide (a = next s)) as [->|Hne].
    + rewrite lookup_insert_eq. by intros [= <-].
    + rewrite lookup_insert_ne by done. apply Hwf.
Qed.

Lemma wf_set_depends_obj d s : wf s → wf (set_depends_obj d s).
Proof. by intros []. Qed.

Lemma wf_Registry_add key f scope s : wf s → wf (snd (Registry.add key f scope s)).
Proof.
  intros Hwf.
  destruct (ScopeRegistry.resolve scope s) as [[sc|e] s0] eqn:E;
    pose proof (resolve_pure scope s) as Hp; rewrite E in Hp; simpl in Hp;
    subst s0.
  - rewrite (Registry_add_ok _ f _ _ _ E). by apply wf_bound.
  - by rewrite (Registry_add_err _ f _ _ _ E).
Qed.

Lemma wf_DependencyRegistry_add obj keys :
  preserves wf (DependencyRegistry.add obj keys).
Proof.
  unfold DependencyRegistry.add.
  apply pres_bind; [|intros ?; apply pres_ret].
  apply pres_mapM. intros k. unfold DependencyRegistry.add1.
  destruct (negb (hashable obj)); [apply pres_raise|].
  apply pres_bind; [apply pres_get_state|]. intros s0.
  apply pres_bind.
  - apply pres_modify. intros s1. apply wf_set_depends_obj.
  - intros _. destruct k; [|apply pres_raise].
    apply pres_modify. intros s1. apply wf_set_depends_obj.
Qed.

Lemma wf_resolve key_or_keys more_keys with_keys :
  preserves wf (Di.resolve key_or_keys more_keys with_keys).
Proof.
  unfold Di.resolve. apply pres_bind.
  - intros s Hwf.
    destruct (mapM Di._resolve_one
                (Di._coerce_key_or_keys key_or_keys more_keys) s)
      as [r s'] eqn:E.
    by destruct (mapM_resolve_one_wf _ _ _ _ Hwf E).
  - intros l. cbv zeta. pres.
Qed.

(** X20. The invariant is kept. Every operation of the container, whether
    it returns or raises, leaves a well-formed state well formed: the four
    scope names stay bound to their classes, a class entry of the scope
    registry holds an initialised instance of that very class, no address
    in use is handed out again, and a [NoneScope] stores nothing. *)
Theorem container_invariant_is_kept
    s key factory scope obj key_or_keys dependent more_keys with_keys name :
  wf s →
  wf (snd (Di.register key factory scope s)) ∧
  wf (snd (Di.register_instance key obj s)) ∧
  wf (snd (Di.depends_on key_or_keys dependent s)) ∧
  wf (snd (Di.resolve key_or_keys more_keys with_keys s)) ∧
  wf (snd (Di.resolve_deps obj with_keys s)) ∧
  wf (snd (Di.scope s)) ∧
  wf (snd (Di.named_scope name s)).
Proof.
  intros Hwf. split_and!.
  - destruct factory as [f|]; [|done]. unfold Di.register.
    pose proof (wf_Registry_add key f scope s Hwf) as H.
    unfold bind. by destruct (Registry.add key f scope s) as [[[]|e] s1].
  - by apply wf_Registry_add.
  - destruct dependent as [o|]; [|done]. unfold Di.depends_on.
    pose proof (wf_DependencyRegistry_add o
                  (Di._coerce_key_or_keys key_or_keys []) s Hwf) as H.
    unfold bind.
    by destruct (DependencyRegistry.add o _ s) as [[[]|e] s1].
  - by apply wf_resolve.
  - unfold Di.resolve_deps. apply pres_bind; [|intros [d|]| done].
    + unfold Di.get_deps, DependencyRegistry.get.
      apply pres_bind; [apply pres_get_state|]. intros s0.
      apply pres_bind; [apply pres_lift|]. intros b.
      destruct (negb b); apply pres_ret.
    + apply wf_resolve.
    + apply pres_raise.
  - apply (wf_new_instance s {| so_class := C_Scope; instances := Some ∅;
                               so_name := None |} Hwf). done.
  - apply (wf_new_instance s {| so_class := C_NamedScope; instances := None;
                               so_name := Some name |} Hwf). done.
Qed.

(** On a new container, after a registration and a resolution. *)
Lemma container_invariant_is_kept_witness :
  wf (snd (Di.resolve (AStr "a") [AStr "zz"] false abk_di)) ∧
  wf (snd (Di.named_scope (Str "adhoc") abk_di)).
Proof.
  destruct (container_invariant_is_kept abk_di "k" None (Str "x") (Obj 0)
              (AStr "a") None [AStr "zz"] false (Str "adhoc") wf_abk_di)
    as (_ & _ & _ & H4 & _ & _ & H7).
  split; [exact H4|exact H7].
Defined.

(** ** The derived name of a scope class *)

Lemma string_app_cons (c : Ascii.ascii) (s t : string) :
  (String c s ++ t = String c (s ++ t))%string.
Proof. reflexivity. Qed.

Lemma string_app_nil_l (t : string) : ("" ++ t = t)%string.
Proof. reflexivity. Qed.

Lemma string_app_assoc (s t u : string) : ((s ++ t) ++ u = s ++ (t ++ u))%string.
Proof.
  induction s as [|c s IH]; [done|]. by rewrite !string_app_cons, IH.
Qed.

Lemma string_app_empty_r (s : string) : (s ++ "" = s)%string.
Proof. induction s as [|c s IH]; [done|]. by rewrite string_app_cons, IH. Qed.

Lemma rev_app_eq (s acc : string) :
  String.rev_app s acc = (String.rev s ++ acc)%string.
Proof.
  revert acc. induction s as [|c s IH]; intros acc; [done|].
  unfold String.rev. cbn [String.rev_app].
  rewrite (IH (String c acc)), (IH (String c "")).
  by rewrite string_app_assoc, string_app_cons, string_app_nil_l.
Qed.

Lemma rev_cons (c : Ascii.ascii) (s : string) :
  String.rev (String c s) = (String.rev s ++ String c "")%string.
Proof. unfold String.rev at 1. cbn [String.rev_app]. apply rev_app_eq. Qed.

Lemma rev_app_distr (s t : string) :
  String.rev (s ++ t) = (String.rev t ++ String.rev s)%string.
Proof.
  induction s as [|c s IH].
  - rewrite string_app_nil_l. change (String.rev "") with "".
    by rewrite string_app_empty_r.
  - by rewrite string_app_cons, !rev_cons, IH, string_app_assoc.
Qed.

Lemma rev_involutive (s : string) : String.rev (String.rev s) = s.
Proof.
  induction s as [|c s IH]; [done|].
  rewrite rev_cons, rev_app_distr, IH. reflexivity.
Qed.

Lemma prefix_app (p t : string) : String.prefix p (p ++ t) = true.
Proof.
  induction p as [|c p IH].
  - rewrite string_app_nil_l. by destruct t.
  - rewrite string_app_cons. cbn [String.prefix].
    by destruct (Ascii.ascii_dec c c).
Qed.

Lemma prefix_inv (p s : string) :
  String.prefix p s = true → ∃ t, s = (p ++ t)%string.
Proof.
  revert s. induction p as [|c p IH]; intros s; [by exists s|].
  destruct s as [|c' s]; cbn [String.prefix]; [done|].
  destruct (Ascii.ascii_dec c c') as [->|]; [|done].
  intros [t ->]%IH. by exists t.
Qed.

Lemma substring_all (t : string) : String.substring 0 (String.length t) t = t.
Proof. induction t as [|c t IH]; simpl; [done|]. by rewrite IH. Qed.

Lemma substring_app (p t : string) :
  String.substring (String.length p)
    (String.length (p ++ t) - String.length p) (p ++ t) = t.
Proof.
  rewrite string_length_app.
  replace (String.length p + String.length t - String.length p)
    with (String.length t) by lia.
  induction p as [|c p IH]; [apply substring_all|].
  rewrite string_app_cons. exact IH.
Qed.

Lemma after_first_app (p t : string) : after_first p (p ++ t) = Some t.
Proof.
  assert (∀ s, String.prefix p s = true →
            after_first p s
            = Some (String.substring (String.length p)
                      (String.length s - String.length p) s)) as H.
  { intros s Hs. destruct s; cbn [after_first]; by rewrite Hs. }
  by rewrite H, substring_app by apply prefix_app.
Qed.

Lemma endswith_iff (s e : string) :
  endswith s e = true ↔ ∃ x, s = (x ++ e)%string.
Proof.
  unfold endswith. split.
  - intros [t Ht]%prefix_inv. exists (String.rev t).
    by rewrite <- (rev_involutive s), Ht, rev_app_distr, rev_involutive.
  - intros [x ->]. by rewrite rev_app_distr, prefix_app.
Qed.

Lemma Scope_name_eq c :
  Scope.name c = match Scope.__name__ c with
                 | Ok n => Ok (Scope.name_of n)
                 | Err e => Err e
                 end.
Proof. by destruct c. Qed.

(** X21. The name a scope class is registered under. For a class called
    [X + 'Scope'] the derived name is [X] in lower case; for a class whose
    name does not end in ['Scope'] it is the whole name in lower case. Only
    one ['Scope'] is removed, the one at the end. *)
Theorem scope_name_strips_suffix_and_lowers X n :
  Scope.name_of (X ++ "Scope") = lower X ∧
  ((∀ Y, n ≠ (Y ++ "Scope")%string) → Scope.name_of n = lower n).
Proof.
  unfold Scope.name_of. split.
  - rewrite (proj2 (endswith_iff _ _)) by by exists X.
    unfold rsplit1_head. rewrite rev_app_distr, after_first_app.
    by rewrite rev_involutive.
  - intros Hn. destruct (endswith n "Scope") eqn:E; [|done].
    apply endswith_iff in E as [Y ->]. by destruct (Hn Y).
Qed.

(** The classes of the module, and two names a user might choose. *)
Lemma scope_name_strips_suffix_and_lowers_witness :
  Scope.name C_ThreadScope = Ok "thread" ∧
  Scope.name_of "ScopeOfScope" = "scopeof" ∧
  Scope.name_of "Request" = "request".
Proof.
  destruct (scope_name_strips_suffix_and_lowers "ScopeOf" "Request") as [H1 H2].
  split_and!; [by rewrite Scope_name_eq|exact H1|].
  apply H2. intros Y HY.
  assert (endswith "Request" "Scope" = true) as E
    by (apply endswith_iff; by exists Y).
  discriminate E.
Defined.
